(** * ca.rd: field injection and preview-branch publishing

    A shallow embedding of [src/index.ts]: the field registry, the value
    sanitizer, the template engine and the GitHub publishing sequence,
    together with the properties the specification states about them. *)

From Stdlib Require Import NArith Ascii String.
From stdpp Require Import base list option countable gmap.

Open Scope N_scope.

Set Warnings "-register-all".

(** ** JavaScript strings

    A JavaScript string is a sequence of UTF-16 code units.  Equality,
    [charAt], [slice], [length], [trim] and the regular-expression class
    [\s] all work on code units, so this is the representation the code
    observes. *)

Abbreviation jsstring := (list N).

(** A string literal of the source (all literals of [index.ts] are ASCII). *)
Definition js (s : string) : jsstring :=
  map N_of_ascii (list_ascii_of_string s).

(** ECMAScript [WhiteSpace] and [LineTerminator] code points: the class
    matched by [\s] and stripped by [String.prototype.trim]. *)
Definition is_ws (c : N) : bool :=
  (9 <=? c) && (c <=? 13)
  || (c =? 32) || (c =? 160) || (c =? 5760)
  || (8192 <=? c) && (c <=? 8202)
  || (c =? 8232) || (c =? 8233) || (c =? 8239) || (c =? 8287)
  || (c =? 12288) || (c =? 65279).

Definition SPACE : N := 32.

(** [s.replace(/\s+/g, " ")]: the scanner walks the string left to right;
    [in_run] records that the previous code unit was already part of the
    whitespace run being replaced, whose single replacement space has
    been emitted. *)
Fixpoint replace_ws_runs (in_run : bool) (s : jsstring) : jsstring :=
  match s with
  | [] => []
  | c :: r =>
      if is_ws c then
        if in_run then replace_ws_runs true r
        else SPACE :: replace_ws_runs true r
      else c :: replace_ws_runs false r
  end.

Fixpoint trimStart (s : jsstring) : jsstring :=
  match s with
  | [] => []
  | c :: r => if is_ws c then trimStart r else s
  end.

Definition trimEnd (s : jsstring) : jsstring := rev (trimStart (rev s)).

(** [String.prototype.trim] *)
Definition trim (s : jsstring) : jsstring := trimStart (trimEnd s).

(** [Array.prototype.join] on strings *)
Fixpoint join (sep : jsstring) (l : list jsstring) : jsstring :=
  match l with
  | [] => []
  | [w] => w
  | w :: ws => w ++ sep ++ join sep ws
  end.

(** ** JSON values

    What [c.req.json()] and [response.json()] produce.  An object is its
    own enumerable string-keyed properties in [Object.entries] order.
    Numbers are only ever tested for truthiness and passed through. *)
Inductive JValue : Type :=
  | JNull
  | JBool (b : bool)
  | JNum (n : Z)
  | JStr (s : jsstring)
  | JArr (l : list JValue)
  | JObj (l : list (jsstring * JValue)).

(** [sanitizeFieldValue] (index.ts 68-73) *)
Definition sanitizeFieldValue (value : JValue) : jsstring :=
  match value with
  | JStr s => trim (replace_ws_runs false s)
  | _ => []
  end.

(** *** The specification's reading of the sanitizer

    The maximal runs of non-whitespace code units of a string, in
    order.  "Collapse every whitespace run to one space and trim" is
    then: the words joined by single spaces. *)

(** The string is empty or starts with whitespace: a word ends here. *)
Definition starts_with_ws (s : jsstring) : bool :=
  match s with
  | [] => true
  | c :: _ => is_ws c
  end.

Definition push_front (c : N) (ws : list jsstring) : list jsstring :=
  match ws with
  | [] => [[c]]
  | w :: ws' => (c :: w) :: ws'
  end.

Fixpoint words (s : jsstring) : list jsstring :=
  match s with
  | [] => []
  | c :: r =>
      if is_ws c then words r
      else if starts_with_ws r then [c] :: words r
      else push_front c (words r)
  end.

Definition collapse_spec (s : jsstring) : jsstring := join [SPACE] (words s).

(** A word is a non-empty string with no whitespace in it. *)
Definition no_ws (s : jsstring) : Prop := Forall (fun c => is_ws c = false) s.

Definition word (w : jsstring) : Prop := w <> [] /\ no_ws w.

(** ** JavaScript objects

    A plain object is its list of own string-keyed properties in
    [Object.entries] order.  [obj_set] is the assignment [o[k] = v]: an
    existing property keeps its place, a new one goes last.  (Keys that
    are canonical array indices would be enumerated first; no such key
    is ever assigned by this program, the registry ids being words.) *)

Section Objects.

Context {V : Type}.

Definition Object_keys (o : list (jsstring * V)) : list jsstring := o.*1.

Fixpoint obj_get (k : jsstring) (o : list (jsstring * V)) : option V :=
  match o with
  | [] => None
  | (k', v) :: r => if decide (k = k') then Some v else obj_get k r
  end.

Fixpoint obj_set (k : jsstring) (v : V) (o : list (jsstring * V))
  : list (jsstring * V) :=
  match o with
  | [] => [(k, v)]
  | (k', v') :: r =>
      if decide (k = k') then (k, v) :: r else (k', v') :: obj_set k v r
  end.

(** Object spread [{...a, ...b}] *)
Definition obj_spread (a b : list (jsstring * V)) : list (jsstring * V) :=
  foldl (fun o kv => obj_set kv.1 kv.2 o) a b.

End Objects.

(** ** The field registry (index.ts 16-55) *)
Record TemplateFieldConfig : Type := {
  id : jsstring;
  selector : option jsstring;
  index : option nat;
  attr : option jsstring
}.

Definition field (i sel : string) : TemplateFieldConfig :=
  {| id := js i; selector := Some (js sel); index := None; attr := None |}.

Definition field_at (i sel : string) (n : nat) : TemplateFieldConfig :=
  {| id := js i; selector := Some (js sel); index := Some n; attr := None |}.

Definition TEMPLATE_FIELD_CONFIGS : list TemplateFieldConfig := [
  field "phone" ".card__phone";
  field_at "companyWordLeft" ".card__company-word" 0;
  field "companyAmpersand" ".card__company-ampersand";
  field_at "companyWordRight" ".card__company-word" 1;
  field "companyTagline" ".card__company-tagline";
  field "personFirst" ".card__person-first";
  field "personLast" ".card__person-last";
  field "title" ".card__title";
  field "address" ".card__bottom-address";
  field "faxLabel" ".card__bottom-contact--fax .card__bottom-label";
  field "faxValue" ".card__bottom-contact--fax .card__bottom-value";
  field "telexLabel" ".card__bottom-contact--telex .card__bottom-label";
  field "telexValue" ".card__bottom-contact--telex .card__bottom-value"
].

(** [new Map(pairs)]: pairs are set in order, a later one replacing an
    earlier one with the same key. *)
Definition Map_of {V : Type} (pairs : list (jsstring * V)) : gmap jsstring V :=
  foldl (fun m kv => <[kv.1 := kv.2]> m) ∅ pairs.

Definition TEMPLATE_FIELD_MAP : gmap jsstring TemplateFieldConfig :=
  Map_of (map (fun config => (id config, config)) TEMPLATE_FIELD_CONFIGS).

(** [TEMPLATE_FIELD_MAP.has(key)] *)
Definition has_field (key : jsstring) : bool :=
  bool_decide (is_Some (TEMPLATE_FIELD_MAP !! key)).

(** ** [Object.entries] of a JSON value

    An array is an object whose keys are its indices in decimal. *)
Fixpoint digits (u : Decimal.uint) : jsstring :=
  match u with
  | Decimal.Nil => []
  | Decimal.D0 r => 48 :: digits r
  | Decimal.D1 r => 49 :: digits r
  | Decimal.D2 r => 50 :: digits r
  | Decimal.D3 r => 51 :: digits r
  | Decimal.D4 r => 52 :: digits r
  | Decimal.D5 r => 53 :: digits r
  | Decimal.D6 r => 54 :: digits r
  | Decimal.D7 r => 55 :: digits r
  | Decimal.D8 r => 56 :: digits r
  | Decimal.D9 r => 57 :: digits r
  end.

(** [String(n)] for a non-negative integer *)
Definition Number_toString (n : N) : jsstring := digits (N.to_uint n).

Definition Object_entries (v : JValue) : list (jsstring * JValue) :=
  match v with
  | JObj l => l
  | JArr l => imap (fun i x => (Number_toString (N.of_nat i), x)) l
  | _ => []
  end.

(** [!v] *)
Definition falsy (v : option JValue) : bool :=
  match v with
  | None | Some JNull | Some (JBool false) => true
  | Some (JNum n) => bool_decide (n = 0%Z)
  | Some (JStr s) => bool_decide (s = [])
  | _ => false
  end.

(** [typeof v === "object"] *)
Definition typeof_object (v : option JValue) : bool :=
  match v with
  | Some JNull | Some (JArr _) | Some (JObj _) => true
  | _ => false
  end.

(** The body of the loop of [normalizeFieldValues] (index.ts 83-88) *)
Definition normalize_step (result : list (jsstring * jsstring))
    (entry : jsstring * JValue) : list (jsstring * jsstring) :=
  if has_field entry.1
  then obj_set entry.1 (sanitizeFieldValue entry.2) result
  else result.

(** [normalizeFieldValues] (index.ts 75-91).  The argument is
    [body.fields]: [None] is [undefined]. *)
Definition normalizeFieldValues (values : option JValue)
  : list (jsstring * jsstring) :=
  if falsy values || negb (typeof_object values) then []
  else
    match values with
    | Some o => foldl normalize_step [] (Object_entries o)
    | None => []
    end.

(** The key starts with a lower-case letter or a later code unit: it is
    not a decimal number. *)
Definition starts_with_letter (k : jsstring) : bool :=
  match k with
  | c :: _ => 97 <=? c
  | [] => false
  end.

(** The properties the raw [fields] value exposes to [Object.entries];
    [undefined] has none. *)
Definition raw_entries (values : option JValue) : list (jsstring * JValue) :=
  match values with
  | Some o => Object_entries o
  | None => []
  end.

(** ** The platform

    Library functions the code calls and the repository does not
    define.  They are parameters of the development. *)
Class Platform : Type := {
  (** [String.prototype.toUpperCase], [toLowerCase] *)
  toUpperCase : jsstring -> jsstring;
  toLowerCase : jsstring -> jsstring;
  encodeURIComponent : jsstring -> jsstring;
  JSON_stringify : JValue -> jsstring;
  (** [Buffer.from(s, "utf8").toString("base64")] *)
  base64_of_utf8 : jsstring -> jsstring;
  (** [resolve(process.cwd(), "src/public", "preview/index.html")] *)
  previewTemplatePath : jsstring
}.

(** The document interface the template engine uses (linkedom).  A
    mutation returns the document after it; a node is a handle that
    stays valid across mutations.  Nodes are elements: [getAttribute]
    and [setAttribute] are functions on them and [textContent] is a
    string. *)
Class Dom : Type := {
  Document : Type;
  Node : Type;
  parseHTML : jsstring -> Document;
  querySelector : Document -> jsstring -> option Node;
  querySelectorAll : Document -> jsstring -> list Node;
  getAttribute : Document -> Node -> jsstring -> option jsstring;
  setAttribute : Document -> Node -> jsstring -> jsstring -> Document;
  textContent : Document -> Node -> jsstring;
  set_textContent : Document -> Node -> jsstring -> Document;
  (** [document.documentElement.outerHTML], for a document that has a
      root element.  Where [documentElement] is [null] (a template with
      no element at all, such as an empty file) index.ts 179 throws a
      [TypeError]; the model does not describe those templates. *)
  outerHTML : Document -> jsstring
}.

(** A string in a condition: [""] and [undefined] are falsy. *)
Definition truthy_string (s : option jsstring) : option jsstring :=
  match s with
  | Some (c :: r) => Some (c :: r)
  | _ => None
  end.

Section TemplateEngine.

Context {P : Platform} {D : Dom}.

(** [getTemplateNode] (index.ts 93-104) *)
Definition getTemplateNode (doc : Document) (config : TemplateFieldConfig)
  : option Node :=
  match truthy_string (selector config) with
  | None => None
  | Some sel =>
      match index config with
      | Some i => querySelectorAll doc sel !! i
      | None => querySelector doc sel
      end
  end.

(** [readTemplateField] (index.ts 106-117) *)
Definition readTemplateField (doc : Document) (config : TemplateFieldConfig)
  : jsstring :=
  match getTemplateNode doc config with
  | None => []
  | Some node =>
      match truthy_string (attr config) with
      | Some a => default [] (getAttribute doc node a)
      | None => textContent doc node
      end
  end.

(** [writeTemplateField] (index.ts 119-135) *)
Definition writeTemplateField (doc : Document) (config : TemplateFieldConfig)
    (value : jsstring) : Document :=
  match getTemplateNode doc config with
  | None => doc
  | Some node =>
      match truthy_string (attr config) with
      | Some a => setAttribute doc node a value
      | None => set_textContent doc node value
      end
  end.

(** [capitalizeWord] (index.ts 137-142) *)
Definition capitalizeWord (value : jsstring) : jsstring :=
  match value with
  | [] => value
  | c :: r => toUpperCase [c] ++ toLowerCase r
  end.

(** The loop of [applyFieldsToTemplate] (index.ts 150-159): the state
    is the document and the [applied] object. *)
Definition write_entry (st : Document * list (jsstring * jsstring))
    (entry : jsstring * jsstring) : Document * list (jsstring * jsstring) :=
  match TEMPLATE_FIELD_MAP !! entry.1 with
  | None => st
  | Some config =>
      (writeTemplateField st.1 config entry.2, obj_set entry.1 entry.2 st.2)
  end.

Definition write_fields (doc : Document) (values : list (jsstring * jsstring))
  : Document * list (jsstring * jsstring) :=
  foldl write_entry (doc, []) values.

(** [.filter(Boolean)] on strings *)
Definition filter_Boolean (l : list jsstring) : list jsstring :=
  filter (fun s => s <> []) l.

(** The derived-title step (index.ts 161-177) *)
Definition derive_title (doc : Document) : Document :=
  match TEMPLATE_FIELD_MAP !! js "personFirst",
        TEMPLATE_FIELD_MAP !! js "personLast" with
  | Some firstConfig, Some lastConfig =>
      let first := sanitizeFieldValue (JStr (readTemplateField doc firstConfig)) in
      let last := sanitizeFieldValue (JStr (readTemplateField doc lastConfig)) in
      let computedTitle :=
        trim (join (js " ") (map capitalizeWord (filter_Boolean [first; last]))) in
      match computedTitle with
      | [] => doc
      | _ =>
          match querySelector doc (js "title") with
          | Some titleNode => set_textContent doc titleNode computedTitle
          | None => doc
          end
      end
  | _, _ => doc
  end.

Definition DOCTYPE : jsstring := js "<!DOCTYPE html>" ++ [10].

(** [applyFieldsToTemplate] (index.ts 144-181): the pair
    [(html, applied)], for a template with a root element (see
    [outerHTML]) *)
Definition applyFieldsToTemplate (templateHtml : jsstring)
    (values : list (jsstring * jsstring))
  : jsstring * list (jsstring * jsstring) :=
  let document := parseHTML templateHtml in
  let '(document, applied) := write_fields document values in
  let document := derive_title document in
  (DOCTYPE ++ outerHTML document, applied).

End TemplateEngine.

(** ** The derived title *)

(** A string is tidy when it is not empty and has no whitespace at
    either end.  What the sanitizer returns is empty or tidy. *)
Definition tidy (s : jsstring) : Prop :=
  starts_with_ws s = false /\ trimEnd s = s.

Definition personFirstConfig : TemplateFieldConfig :=
  field "personFirst" ".card__person-first".
Definition personLastConfig : TemplateFieldConfig :=
  field "personLast" ".card__person-last".

Section DerivedTitle.

Context {P : Platform} {D : Dom}.

(** What the code needs of the platform's case conversions: they do
    not turn an end of a string that is not whitespace into
    whitespace, nor erase a string.  ECMAScript's conversions map no
    character to or from whitespace. *)
Record case_mapping_tidy : Prop := {
  upper_head : forall s,
    starts_with_ws s = false -> starts_with_ws (toUpperCase s) = false;
  upper_tail : forall s, trimEnd s = s -> trimEnd (toUpperCase s) = toUpperCase s;
  lower_tail : forall s, trimEnd s = s -> trimEnd (toLowerCase s) = toLowerCase s
}.

(** The title element's text is replaced; a document with no title
    element stays as it is. *)
Definition set_title (doc : Document) (text : jsstring) : Document :=
  match querySelector doc (js "title") with
  | Some titleNode => set_textContent doc titleNode text
  | None => doc
  end.

End DerivedTitle.

(** ** The outside world

    HTTP responses, requests, the console, the file system, the random
    source and the clock.  Everything the handler does to the outside is
    recorded as an event, in order. *)
Record Response : Type := {
  status : N;
  (** [await response.text()] *)
  body_text : jsstring;
  (** [await response.json()]; [None] when the body is not JSON *)
  body_json : option JValue
}.

(** [response.ok] *)
Definition ok (r : Response) : bool := (200 <=? status r) && (status r <=? 299).

Record RequestInit : Type := {
  method : option jsstring;
  headers : option (list (jsstring * jsstring));
  body : option jsstring
}.

Inductive Exception : Type :=
  | Error (message : jsstring)
  | TypeError
  | SyntaxError
  (** a rejected [fetch] *)
  | FetchFailed
  (** a rejected [readFile] *)
  | ReadFailed.

Inductive Level : Type := LevelWarn | LevelError.

Inductive LogArg : Type :=
  | LStr (s : jsstring)
  | LVal (v : JValue)
  | LExn (e : Exception).

Inductive Event : Type :=
  | EvFetch (url : jsstring) (init : RequestInit)
  | EvConsole (level : Level) (args : list LogArg)
  | EvReadFile (path : jsstring)
  | EvRandomUUID (uuid : jsstring)
  | EvDate (iso : jsstring).

Class World (E : Type) : Type := {
  (** [fetch(url, init)]: a response, or a rejection *)
  fetch : jsstring -> RequestInit -> E -> option Response * E;
  randomUUID : E -> jsstring * E;
  (** [new Date().toISOString()] *)
  Date_toISOString : E -> jsstring * E;
  (** [readFile(path, "utf8")] *)
  readFile : jsstring -> E -> option jsstring * E
}.

Inductive Outcome (A : Type) : Type :=
  | Returned (a : A)
  | Thrown (e : Exception).
Arguments Returned {A} a.
Arguments Thrown {A} e.

Record Ran (E A : Type) : Type := MkRan {
  outcome : Outcome A;
  world : E;
  trace : list Event
}.
Arguments MkRan {E A} _ _ _.
Arguments outcome {E A} _.
Arguments world {E A} _.
Arguments trace {E A} _.

(** An asynchronous computation: run from a world, it ends by
    returning or throwing, in a new world, having caused events. *)
Definition Async (E A : Type) : Type := E -> Ran E A.

Section Monad.

Context {E : Type}.

#[export] Instance async_ret : MRet (Async E) :=
  fun A a e => MkRan (Returned a) e [].

#[export] Instance async_bind : MBind (Async E) :=
  fun A B f m e =>
    let r := m e in
    match outcome r with
    | Returned a =>
        let r' := f a (world r) in
        MkRan (outcome r') (world r') (trace r ++ trace r')
    | Thrown x => MkRan (Thrown x) (world r) (trace r)
    end.

Definition throw {A : Type} (x : Exception) : Async E A :=
  fun e => MkRan (Thrown x) e [].

(** [try { m } catch (error) { handler(error) }] *)
Definition try_catch {A : Type} (m : Async E A)
    (handler : Exception -> Async E A) : Async E A :=
  fun e =>
    let r := m e in
    match outcome r with
    | Returned a => r
    | Thrown x =>
        let r' := handler x (world r) in
        MkRan (outcome r') (world r') (trace r ++ trace r')
    end.

(** A run that comes after the events [t] *)
Definition after {A : Type} (t : list Event) (r : Ran E A) : Ran E A :=
  MkRan (outcome r) (world r) (t ++ trace r).

Context {W : World E}.

Definition do_fetch (url : jsstring) (init : RequestInit) : Async E Response :=
  fun e =>
    match fetch url init e with
    | (Some response, e') => MkRan (Returned response) e' [EvFetch url init]
    | (None, e') => MkRan (Thrown FetchFailed) e' [EvFetch url init]
    end.

Definition do_readFile (path : jsstring) : Async E jsstring :=
  fun e =>
    match readFile path e with
    | (Some text, e') => MkRan (Returned text) e' [EvReadFile path]
    | (None, e') => MkRan (Thrown ReadFailed) e' [EvReadFile path]
    end.

Definition do_randomUUID : Async E jsstring :=
  fun e => let '(u, e') := randomUUID e in MkRan (Returned u) e' [EvRandomUUID u].

Definition do_Date_toISOString : Async E jsstring :=
  fun e => let '(t, e') := Date_toISOString e in MkRan (Returned t) e' [EvDate t].

(** [await response.json()] *)
Definition response_json (r : Response) : Async E JValue :=
  match body_json r with
  | Some v => mret v
  | None => throw SyntaxError
  end.

End Monad.

(** [v?.k]: the property of an object, [undefined] on anything else
    (no other JSON value has one of the properties read here). *)
Definition get_property (v : option JValue) (k : jsstring) : option JValue :=
  match v with
  | Some (JObj l) => obj_get k l
  | _ => None
  end.

(** [s.split(sep)] for a one-character separator *)
Fixpoint split_on (sep : N) (s : jsstring) : list jsstring :=
  match s with
  | [] => [[]]
  | c :: r =>
      if c =? sep then [] :: split_on sep r
      else match split_on sep r with
           | w :: ws => (c :: w) :: ws
           | [] => [[c]]
           end
  end.

(** [repoConfig] (index.ts 57-66): read from the environment once, at
    start-up, and visible everywhere. *)
Record RepoConfig : Type := {
  owner : jsstring;
  repo : jsstring;
  baseBranch : jsstring;
  pat : jsstring;
  commitAuthorName : jsstring;
  commitAuthorEmail : jsstring;
  targetFilePath : jsstring
}.
Existing Class RepoConfig.

Record PreviewBranchResult : Type := {
  branchName : jsstring;
  branchUrl : jsstring;
  vercelImportUrl : jsstring
}.

(** What the handler answers: [c.text(body, status)] or [c.json(value)]. *)
Inductive Reply : Type :=
  | c_text (text : jsstring) (code : N)
  | c_json (value : JValue).


Definition GITHUB_API_VERSION : jsstring := js "2022-11-28".

(** ** The GitHub client and the branch publisher *)

Section Publishing.

Context {P : Platform} {D : Dom} {E : Type} {W : World E}.
Context {repoConfig : RepoConfig}.

Definition str (s : jsstring) : JValue := JStr s.

(** [encodeGitHubPath] (index.ts 183-187) *)
Definition encodeGitHubPath (path : jsstring) : jsstring :=
  join (js "/") (map encodeURIComponent (split_on 47 path)).

(** *** [githubPatRequest] (index.ts 268-295) *)

Definition fixed_headers : list (jsstring * jsstring) := [
  (js "Accept", js "application/vnd.github+json");
  (js "Authorization", js "token " ++ pat repoConfig);
  (js "X-GitHub-Api-Version", GITHUB_API_VERSION)
].

(** The second argument of [fetch]: [{...init, headers: {fixed, ...init.headers}}] *)
Definition with_github_headers (init : RequestInit) : RequestInit :=
  {| method := method init;
     body := body init;
     headers := Some (obj_spread fixed_headers (default [] (headers init))) |}.

Definition api (path : jsstring) : jsstring := js "https://api.github.com" ++ path.

Definition request_failed (path : jsstring) (response : Response) : Event :=
  EvConsole LevelError [
    LStr (js "GitHub PAT request failed: "
          ++ Number_toString (status response) ++ js " " ++ path);
    LStr (body_text response)].

(** [console.error] and [console.warn] *)
Definition log (ev : Event) : Async E unit :=
  fun e => MkRan (Returned tt) e [ev].

Definition githubPatRequest (path : jsstring) (init : RequestInit)
  : Async E Response :=
  match pat repoConfig with
  | [] => throw (Error (js "GitHub PAT is not configured."))
  | _ =>
      response ← do_fetch (api path) (with_github_headers init);
      (if ok response then mret tt
       else log (request_failed path response));;
      mret response
  end.

(** *** The requests of the publishing sequence *)

Definition status_and_body (r : Response) : JValue :=
  JObj [(js "status", JNum (Z.of_N (status r))); (js "body", str (body_text r))].

Definition identity : JValue :=
  JObj [(js "name", str (commitAuthorName repoConfig));
        (js "email", str (commitAuthorEmail repoConfig))].

Definition json_headers : option (list (jsstring * jsstring)) :=
  Some [(js "Content-Type", js "application/json")].

Definition get_init : RequestInit :=
  {| method := Some (js "GET"); headers := None; body := None |}.

Definition repo_path : jsstring :=
  js "/repos/" ++ owner repoConfig ++ js "/" ++ repo repoConfig.

Definition base_ref_path : jsstring :=
  repo_path ++ js "/git/ref/heads/" ++ baseBranch repoConfig.

Definition refs_path : jsstring := repo_path ++ js "/git/refs".

Definition create_ref_init (branchName : jsstring) (baseSha : JValue)
  : RequestInit :=
  {| method := Some (js "POST");
     headers := json_headers;
     body := Some (JSON_stringify (JObj [
       (js "ref", str (js "refs/heads/" ++ branchName));
       (js "sha", baseSha)])) |}.

Definition readme_path : jsstring :=
  repo_path ++ js "/contents/" ++ encodeGitHubPath (js "README.md").

Definition readme_lookup_path (branchName : jsstring) : jsstring :=
  readme_path ++ js "?ref=" ++ encodeURIComponent branchName.

Definition delete_init (branchName : jsstring) (readmeSha : JValue)
  : RequestInit :=
  {| method := Some (js "DELETE");
     headers := json_headers;
     body := Some (JSON_stringify (JObj [
       (js "message", str (js "chore: remove README for " ++ branchName));
       (js "branch", str branchName);
       (js "sha", readmeSha);
       (js "committer", identity);
       (js "author", identity)])) |}.

Definition update_path : jsstring :=
  repo_path ++ js "/contents/" ++ encodeGitHubPath (targetFilePath repoConfig).

Definition update_init (content commitMessage branchName : jsstring)
  : RequestInit :=
  {| method := Some (js "PUT");
     headers := json_headers;
     body := Some (JSON_stringify (JObj [
       (js "message", str commitMessage);
       (js "content", str (base64_of_utf8 content));
       (js "branch", str branchName);
       (js "committer", identity);
       (js "author", identity)])) |}.

Definition branch_url (branchName : jsstring) : jsstring :=
  js "https://github.com/" ++ owner repoConfig ++ js "/" ++ repo repoConfig
  ++ js "/tree/" ++ branchName.

(** [v] when it is truthy *)
Definition truthy (v : option JValue) : option JValue :=
  if falsy v then None else v.

Definition readme_unloadable (response : Response) : Event :=
  EvConsole LevelWarn [
    LStr (js "[/github/preview] Unable to load README metadata.");
    LVal (status_and_body response)].

Definition readme_sha_missing : Event :=
  EvConsole LevelWarn [LStr (js "[/github/preview] README metadata missing SHA.")].

Definition readme_delete_failed (response : Response) : Event :=
  EvConsole LevelWarn [
    LStr (js "[/github/preview] Failed to delete README.");
    LVal (status_and_body response)].

(** *** [removeReadmeFromBranch] (index.ts 189-248) *)
Definition removeReadmeFromBranch (branchName : jsstring) : Async E unit :=
  readmeResponse ← githubPatRequest (readme_lookup_path branchName) get_init;
  if status readmeResponse =? 404 then mret tt
  else if negb (ok readmeResponse) then log (readme_unloadable readmeResponse)
  else
    readmeData ← response_json readmeResponse;
    match truthy (get_property (Some readmeData) (js "sha")) with
    | None => log readme_sha_missing
    | Some readmeSha =>
        deleteResponse ← githubPatRequest readme_path
                           (delete_init branchName readmeSha);
        if negb (ok deleteResponse) && negb (status deleteResponse =? 404)
        then log (readme_delete_failed deleteResponse)
        else mret tt
    end.

Definition incomplete (c : RepoConfig) : bool :=
  bool_decide (owner c = []) || bool_decide (repo c = [])
  || bool_decide (pat c = []).

(** The content commit, the last step of [pushPreviewBranch]
    (index.ts 348-387) *)
Definition commit_content (branchName content commitMessage : jsstring)
  : Async E PreviewBranchResult :=
  updateResponse ← githubPatRequest update_path
                     (update_init content commitMessage branchName);
  if negb (ok updateResponse) then
    log (EvConsole LevelError [
           LStr (js "[/github/preview] Failed to update template file.");
           LVal (status_and_body updateResponse)]);;
    throw (Error (js "Unable to update template file."))
  else
    mret {| branchName := branchName;
            branchUrl := branch_url branchName;
            vercelImportUrl :=
              js "https://vercel.com/new/clone?repository-url="
              ++ encodeURIComponent (branch_url branchName) |}.

(** *** [pushPreviewBranch] (index.ts 297-388) *)
Definition pushPreviewBranch (content commitMessage : jsstring)
  : Async E PreviewBranchResult :=
  if incomplete repoConfig then
    throw (Error (js "GitHub repository configuration is incomplete."))
  else
    baseRefResponse ← githubPatRequest base_ref_path get_init;
    if negb (ok baseRefResponse) then
      throw (Error (js "Unable to load base branch reference."))
    else
      baseRefData ← response_json baseRefResponse;
      match truthy (get_property (get_property (Some baseRefData) (js "object"))
                                 (js "sha")) with
      | None => throw (Error (js "Base branch reference missing SHA."))
      | Some baseSha =>
          uuid ← do_randomUUID;
          let branchName := js "card-" ++ uuid in
          createRefResponse ← githubPatRequest refs_path
                                (create_ref_init branchName baseSha);
          if negb (ok createRefResponse) then
            log (EvConsole LevelError [
                   LStr (js "[/github/preview] Failed to create branch.");
                   LVal (status_and_body createRefResponse)]);;
            throw (Error (js "Unable to create preview branch."))
          else
            removeReadmeFromBranch branchName;;
            commit_content branchName content commitMessage
      end.

(** *** The handler of [POST /github/preview] (index.ts 462-513) *)

(** [body.fields]: reading a property of [null] throws. *)
Definition property_of (v : JValue) (k : jsstring) : Async E (option JValue) :=
  match v with
  | JNull => throw TypeError
  | _ => mret (get_property (Some v) k)
  end.

Definition default_commit_message : Async E jsstring :=
  now ← do_Date_toISOString;
  mret (js "chore: update card preview " ++ now).

(** The commit message (index.ts 493-496) *)
Definition commit_message_of (body : JValue) : Async E jsstring :=
  match get_property (Some body) (js "commitMessage") with
  | Some (JStr s) =>
      match trim s with
      | [] => default_commit_message
      | t => mret (take 250 t)
      end
  | _ => default_commit_message
  end.

Definition publish_failed : Reply := c_text (js "Failed to publish preview.") 500.

(** The final [try]/[catch] (index.ts 498-512) *)
Definition publish_reply (html : jsstring) (applied : list (jsstring * jsstring))
    (commitMessage : jsstring) : Async E Reply :=
  try_catch
    (pushed ← pushPreviewBranch html commitMessage;
     mret (c_json (JObj [
       (js "branch", str (branchName pushed));
       (js "branchUrl", str (branchUrl pushed));
       (js "vercelImportUrl", str (vercelImportUrl pushed));
       (js "appliedFields", JObj (prod_map Datatypes.id str <$> applied))])))
    (fun error =>
       log (EvConsole LevelError [
              LStr (js "[/github/preview] Failed to publish preview.");
              LExn error]);;
       mret publish_failed).

(** The argument is what [c.req.json()] gives: [None] when it rejects. *)
Definition preview_handler (request_json : option JValue) : Async E Reply :=
  if incomplete repoConfig then
    log (EvConsole LevelError [
           LStr (js "GitHub repository configuration is incomplete.")]);;
    mret (c_text (js "GitHub repository not configured.") 500)
  else
    match request_json with
    | None => mret (c_text (js "Invalid JSON body.") 400)
    | Some body =>
        fields ← property_of body (js "fields");
        let normalizedFields := normalizeFieldValues fields in
        if bool_decide (length (Object_keys normalizedFields) = 0%nat) then
          mret (c_text (js "No valid fields provided.") 400)
        else
          loaded ← try_catch
            (templateHtml ← do_readFile previewTemplatePath;
             mret (inr templateHtml))
            (fun error =>
               log (EvConsole LevelError [
                      LStr (js "Failed to read preview template from disk.");
                      LExn error]);;
               mret (inl (c_text (js "Unable to load template file.") 500)));
          match loaded with
          | inl reply => mret reply
          | inr templateHtml =>
              let '(html, applied) :=
                applyFieldsToTemplate templateHtml normalizedFields in
              commitMessage ← commit_message_of body;
              publish_reply html applied commitMessage
          end
    end.

Definition lookup_event (branchName : jsstring) : Event :=
  EvFetch (api (readme_lookup_path branchName)) (with_github_headers get_init).

Definition delete_event (branchName : jsstring) (readmeSha : JValue) : Event :=
  EvFetch (api readme_path) (with_github_headers (delete_init branchName readmeSha)).

Definition update_event (branchName content commitMessage : jsstring) : Event :=
  EvFetch (api update_path)
    (with_github_headers (update_init content commitMessage branchName)).

(** Base-ref resolution and branch creation succeed: from world [e0]
    the branch [branchName] exists in world [e3], the events so far
    being [prefix]. *)
Inductive branch_created (e0 : E) : jsstring -> E -> list Event -> Prop :=
  | BranchCreated base e1 data baseSha uuid e2 created e3 :
      incomplete repoConfig = false ->
      fetch (api base_ref_path) (with_github_headers get_init) e0 = (Some base, e1) ->
      ok base = true ->
      body_json base = Some data ->
      truthy (get_property (get_property (Some data) (js "object")) (js "sha"))
        = Some baseSha ->
      randomUUID e1 = (uuid, e2) ->
      fetch (api refs_path)
            (with_github_headers (create_ref_init (js "card-" ++ uuid) baseSha)) e2
        = (Some created, e3) ->
      ok created = true ->
      branch_created e0 (js "card-" ++ uuid) e3
        [EvFetch (api base_ref_path) (with_github_headers get_init);
         EvRandomUUID uuid;
         EvFetch (api refs_path)
           (with_github_headers (create_ref_init (js "card-" ++ uuid) baseSha))].




(** *** The generated branch name *)

(** The identifiers drawn from [randomUUID] during a run, in order *)
Definition uuids_of (t : list Event) : list jsstring :=
  omap (fun ev => match ev with EvRandomUUID u => Some u | _ => None end) t.

(** A computation that never draws an identifier *)
Definition quiet {A : Type} (m : Async E A) : Prop :=
  forall e, uuids_of (trace (m e)) = [].

(** A computation that can only return a result for the branch [b] *)
Definition names (b : jsstring) (m : Async E PreviewBranchResult) : Prop :=
  forall e r, outcome (m e) = Returned r -> branchName r = b.

(** Every run of [pushPreviewBranch] draws at most one identifier, and
    a run that returns drew exactly one and returns the branch named
    after it. *)
Definition draws_one (m : Async E PreviewBranchResult) (e : E) : Prop :=
  (uuids_of (trace (m e)) = [] /\ forall r, outcome (m e) <> Returned r)
  \/ exists uuid,
       uuids_of (trace (m e)) = [uuid]
       /\ forall r, outcome (m e) = Returned r ->
                    branchName r = js "card-" ++ uuid.

(** *** The commit message *)

Definition default_message_run (e : E) : Ran E jsstring :=
  MkRan (Returned (js "chore: update card preview " ++ (Date_toISOString e).1))
        (Date_toISOString e).2
        [EvDate (Date_toISOString e).1].

End Publishing.

(** ** Reading a trace *)

(** The methods of the requests sent, in order *)
Definition methods_of (t : list Event) : list jsstring :=
  omap (fun ev => match ev with
                  | EvFetch _ init => Some (default [] (method init))
                  | _ => None
                  end) t.

(** Each sequence of [L1] continued by each sequence of [L2] *)
Definition continued (L1 L2 : list (list jsstring)) : list (list jsstring) :=
  l1 ← L1; (fun l2 => l1 ++ l2) <$> L2.

Section Sequences.

Context {E : Type}.

(** The requests of a computation follow one of the sequences of [L]:
    in every run the methods sent are the beginning of one of them, and
    the whole of one when the run returns. *)
Definition follows {A : Type} (L : list (list jsstring)) (m : Async E A) : Prop :=
  forall e,
    (exists l, l ∈ L /\ methods_of (trace (m e)) `prefix_of` l)
    /\ (forall a, outcome (m e) = Returned a -> methods_of (trace (m e)) ∈ L).

End Sequences.

Section Requests.

Context {P : Platform} {D : Dom} {E : Type} {W : World E}.
Context {repoConfig : RepoConfig}.

(** A request to the GitHub API that carries the three fixed headers,
    the token among them; other events pass. *)
Definition authenticated (ev : Event) : Prop :=
  match ev with
  | EvFetch url init =>
      (exists path, url = js "https://api.github.com" ++ path)
      /\ exists hs,
           headers init = Some hs
           /\ obj_get (js "Accept") hs = Some (js "application/vnd.github+json")
           /\ obj_get (js "Authorization") hs = Some (js "token " ++ pat repoConfig)
           /\ obj_get (js "X-GitHub-Api-Version") hs = Some (js "2022-11-28")
  | _ => True
  end.

(** Every request of every run is authenticated. *)
Definition guarded {A : Type} (m : Async E A) : Prop :=
  forall e, Forall authenticated (trace (m e)).

(** The answer to a publish that returned [pushed] *)
Definition published (pushed : PreviewBranchResult)
    (applied : list (jsstring * jsstring)) : Reply :=
  c_json (JObj [
    (js "branch", JStr (branchName pushed));
    (js "branchUrl", JStr (branchUrl pushed));
    (js "vercelImportUrl", JStr (vercelImportUrl pushed));
    (js "appliedFields", JObj (prod_map Datatypes.id JStr <$> applied))]).

End Requests.

(** * A concrete platform, document and world

    The theorems above hold for every platform, document implementation
    and world.  The instances below make them run on inputs: the ASCII
    fragment of the string functions, a small element tree with class
    and tag selectors, and a world that answers requests from a script. *)

Module Demo.

(** ** Strings *)

Definition ascii_upper (c : N) : N :=
  if (97 <=? c) && (c <=? 122) then c - 32 else c.

Definition ascii_lower (c : N) : N :=
  if (65 <=? c) && (c <=? 90) then c + 32 else c.

Definition hex_digit (n : N) : N := if n <? 10 then 48 + n else 55 + n.

Definition percent (byte : N) : jsstring :=
  [37; hex_digit (byte / 16); hex_digit (byte mod 16)].

(** UTF-8 of a code unit of the basic plane *)
Definition utf8 (c : N) : list N :=
  if c <? 128 then [c]
  else if c <? 2048 then [192 + c / 64; 128 + c mod 64]
  else [224 + c / 4096; 128 + (c / 64) mod 64; 128 + c mod 64].

Definition alphanumeric (c : N) : bool :=
  (48 <=? c) && (c <=? 57) || (65 <=? c) && (c <=? 90)
  || (97 <=? c) && (c <=? 122).

(** The characters [encodeURIComponent] leaves alone *)
Definition unreserved (c : N) : bool :=
  alphanumeric c || bool_decide (c ∈ js "-_.!~*'()").

Definition encode_uri (s : jsstring) : jsstring :=
  concat (map (fun c => if unreserved c then [c]
                        else concat (map percent (utf8 c))) s).

Definition base64_char (n : N) : N :=
  if n <? 26 then 65 + n
  else if n <? 52 then 71 + n
  else if n <? 62 then n - 4
  else if n =? 62 then 43 else 47.

Fixpoint base64 (bytes : list N) : jsstring :=
  match bytes with
  | a :: b :: c :: r =>
      base64_char (a / 4) :: base64_char ((a mod 4) * 16 + b / 16)
      :: base64_char ((b mod 16) * 4 + c / 64) :: base64_char (c mod 64)
      :: base64 r
  | [a; b] =>
      [base64_char (a / 4); base64_char ((a mod 4) * 16 + b / 16);
       base64_char ((b mod 16) * 4); 61]
  | [a] => [base64_char (a / 4); base64_char ((a mod 4) * 16); 61; 61]
  | [] => []
  end.

Definition escape (c : N) : jsstring :=
  if c =? 34 then [92; 34]
  else if c =? 92 then [92; 92]
  else if c =? 8 then js "\b"
  else if c =? 9 then js "\t"
  else if c =? 10 then js "\n"
  else if c =? 12 then js "\f"
  else if c =? 13 then js "\r"
  else if c <? 32 then js "\u00" ++ [hex_digit (c / 16); hex_digit (c mod 16)]
  else [c].

Definition quote (s : jsstring) : jsstring :=
  34 :: concat (map escape s) ++ [34].

Fixpoint stringify (v : JValue) : jsstring :=
  match v with
  | JNull => js "null"
  | JBool true => js "true"
  | JBool false => js "false"
  | JNum n =>
      (if (n <? 0)%Z then js "-" else []) ++ Number_toString (Z.abs_N n)
  | JStr s => quote s
  | JArr l => js "[" ++ join (js ",") (map stringify l) ++ js "]"
  | JObj l =>
      js "{"
      ++ join (js ",")
           (map (fun kv => quote (fst kv) ++ js ":" ++ stringify (snd kv)) l)
      ++ js "}"
  end.

#[export] Instance platform : Platform := {|
  toUpperCase := map ascii_upper;
  toLowerCase := map ascii_lower;
  encodeURIComponent := encode_uri;
  JSON_stringify := stringify;
  base64_of_utf8 := fun s => base64 (concat (map utf8 s));
  previewTemplatePath := js "/app/src/public/preview/index.html"
|}.

(** ** Documents: element trees *)

Inductive tree : Type :=
  | Text (s : jsstring)
  | Elem (tag : jsstring) (attrs : list (jsstring * jsstring))
         (children : list tree).

(** What a selector looks at in an element *)
Definition shape : Type := jsstring * list (jsstring * jsstring).

(** A simple selector: [.class] or a tag name *)
Definition simple_match (sel : jsstring) (e : shape) : bool :=
  match sel with
  | 46 :: class =>
      bool_decide (class ∈ words (default [] (obj_get (js "class") e.2)))
  | tag => bool_decide (tag = e.1)
  end.

(** The ancestors, nearest first, satisfy the remaining simple
    selectors, last first (descendant combinators). *)
Fixpoint ancestors_match (sels : list jsstring) (ancestors : list shape) : bool :=
  match sels, ancestors with
  | [], _ => true
  | _ :: _, [] => false
  | sel :: sels', a :: ancestors' =>
      if simple_match sel a then ancestors_match sels' ancestors'
      else ancestors_match sels ancestors'
  end.

Definition selects (sels_rev : list jsstring) (e : shape)
    (ancestors : list shape) : bool :=
  match sels_rev with
  | [] => false
  | sel :: sels' => simple_match sel e && ancestors_match sels' ancestors
  end.

(** The paths of the matching elements, in document order *)
Fixpoint select (sels_rev : list jsstring) (ancestors : list shape)
    (path : list nat) (t : tree) : list (list nat) :=
  match t with
  | Text _ => []
  | Elem tag attrs children =>
      (if selects sels_rev (tag, attrs) ancestors then [path] else [])
      ++ (fix each (i : nat) (cs : list tree) : list (list nat) :=
            match cs with
            | [] => []
            | c :: cs' =>
                select sels_rev ((tag, attrs) :: ancestors) (path ++ [i]) c
                ++ each (S i) cs'
            end) 0%nat children
  end.

Definition select_all (t : tree) (selector : jsstring) : list (list nat) :=
  select (rev (words selector)) [] [] t.

Fixpoint subtree (t : tree) (path : list nat) : option tree :=
  match path with
  | [] => Some t
  | i :: path' =>
      match t with
      | Text _ => None
      | Elem _ _ children =>
          match children !! i with
          | Some c => subtree c path'
          | None => None
          end
      end
  end.

Fixpoint text_of (t : tree) : jsstring :=
  match t with
  | Text s => s
  | Elem _ _ children => concat (map text_of children)
  end.

(** Replace the subtree at [path] by [f] of it. *)
Fixpoint update (f : tree -> tree) (t : tree) (path : list nat) : tree :=
  match path with
  | [] => f t
  | i :: path' =>
      match t with
      | Text _ => t
      | Elem tag attrs children =>
          Elem tag attrs
            ((fix each (j : nat) (cs : list tree) : list tree :=
                match cs with
                | [] => []
                | c :: cs' =>
                    (if bool_decide (j = i) then update f c path' else c)
                    :: each (S j) cs'
                end) 0%nat children)
      end
  end.

Definition with_text (value : jsstring) (t : tree) : tree :=
  match t with
  | Text _ => Text value
  | Elem tag attrs _ =>
      Elem tag attrs (match value with [] => [] | _ => [Text value] end)
  end.

Definition with_attribute (name value : jsstring) (t : tree) : tree :=
  match t with
  | Text _ => t
  | Elem tag attrs children => Elem tag (obj_set name value attrs) children
  end.

Fixpoint serialize (t : tree) : jsstring :=
  match t with
  | Text s => s
  | Elem tag attrs children =>
      js "<" ++ tag
      ++ concat (map (fun a => js " " ++ fst a ++ js "=" ++ quote (snd a)) attrs)
      ++ js ">" ++ concat (map serialize children)
      ++ js "</" ++ tag ++ js ">"
  end.

Definition empty_document : tree :=
  Elem (js "html") [] [Elem (js "head") [] []; Elem (js "body") [] []].

(** A document implementation whose parser knows the template
    [known]: it yields that tree on its source text. *)
Definition dom (known : tree) : Dom := {|
  Document := tree;
  Node := list nat;
  parseHTML := fun source =>
    if bool_decide (source = serialize known) then known else empty_document;
  querySelector := fun doc sel => head (select_all doc sel);
  querySelectorAll := select_all;
  getAttribute := fun doc node name =>
    match subtree doc node with
    | Some (Elem _ attrs _) => obj_get name attrs
    | _ => None
    end;
  setAttribute := fun doc node name value =>
    update (with_attribute name value) doc node;
  textContent := fun doc node => default [] (text_of <$> subtree doc node);
  set_textContent := fun doc node value => update (with_text value) doc node;
  outerHTML := serialize
|}.

Definition el (tag class : string) (children : list tree) : tree :=
  Elem (js tag) [(js "class", js class)] children.

(** A card template with the nodes of the registry *)
Definition card (first last : string) : tree :=
  Elem (js "html") [] [
    Elem (js "head") [] [Elem (js "title") [] [Text (js "ca.rd")]];
    Elem (js "body") [] [
      el "div" "card" [
        el "span" "card__phone" [Text (js "212 555 6342")];
        el "span" "card__company-word" [Text (js "Pierce")];
        el "span" "card__company-ampersand" [Text (js "and")];
        el "span" "card__company-word" [Text (js "Pierce")];
        el "span" "card__person-first" [Text (js first)];
        el "span" "card__person-last" [Text (js last)];
        el "span" "card__title" [Text (js "Vice President")];
        el "div" "card__bottom-contact card__bottom-contact--fax" [
          el "span" "card__bottom-label" [Text (js "FAX")];
          el "span" "card__bottom-value" [Text (js "212 555 6390")]]]]].

Definition template : tree := card "Paul" "Allen".

#[export] Instance card_dom : Dom := dom template.

(** ** A scripted world

    Requests are answered from a list, in order (a request beyond the
    script is rejected); identifiers come from a list; the clock
    stands still; files are looked up in a table. *)
Record Script : Type := {
  responses : list (option Response);
  ids : list jsstring;
  clock : jsstring;
  files : list (jsstring * jsstring)
}.

#[export] Instance scripted : World Script := {|
  fetch := fun _ _ w =>
    match responses w with
    | r :: rs =>
        (r, {| responses := rs; ids := ids w; clock := clock w; files := files w |})
    | [] => (None, w)
    end;
  randomUUID := fun w =>
    match ids w with
    | u :: us =>
        (u, {| responses := responses w; ids := us; clock := clock w;
               files := files w |})
    | [] => (js "00000000-0000-4000-8000-000000000000", w)
    end;
  Date_toISOString := fun w => (clock w, w);
  readFile := fun path w => (obj_get path (files w), w)
|}.

#[export] Instance config : RepoConfig := {|
  owner := js "octo";
  repo := js "card";
  baseBranch := js "main";
  pat := js "ghp_token";
  commitAuthorName := js "Card Automation";
  commitAuthorEmail := js "card-automation@jgoon.com";
  targetFilePath := js "index.html"
|}.

Definition answer (code : N) (payload : JValue) : option Response :=
  Some {| status := code; body_text := stringify payload; body_json := Some payload |}.

Definition base_ref : option Response :=
  answer 200 (JObj [(js "object", JObj [(js "sha", JStr (js "abc123"))])]).

Definition created : option Response :=
  answer 201 (JObj [(js "ref", JStr (js "refs/heads/card-1"))]).

Definition not_found : option Response :=
  answer 404 (JObj [(js "message", JStr (js "Not Found"))]).

Definition committed : option Response :=
  answer 201 (JObj [(js "content", JObj [])]).

Definition world_with (rs : list (option Response)) (us : list jsstring) : Script :=
  {| responses := rs; ids := us; clock := js "2024-05-01T12:00:00.000Z";
     files := [(previewTemplatePath, serialize template)] |}.

(** ** Inputs *)

Definition patrick : list (jsstring * jsstring) :=
  [(js "personFirst", js "patrick"); (js "personLast", js "BATEMAN")].

Definition patrick_only : list (jsstring * jsstring) :=
  [(js "personFirst", js "patrick"); (js "personLast", [])].

(** The title node of [template] *)
Definition title_node : list nat := [0; 0]%nat.

Definition mixed : list (jsstring * jsstring) :=
  [(js "personFirst", js "patrick"); (js "nickname", js "pat");
   (js "phone", js "212 555 0000")].

(** *** Publish attempts *)

Definition html : jsstring := (applyFieldsToTemplate (serialize template) patrick).1.
Definition message : jsstring := js "chore: personalize card".
Definition branch : jsstring := js "card-" ++ js "1f0e".

Definition no_readme : Script :=
  world_with [base_ref; created; not_found; committed] [js "1f0e"].

Definition step (n : nat) (w : Script) : Script :=
  {| responses := drop n (responses w); ids := []; clock := clock w;
     files := files w |}.

Definition readme_without_sha : Script :=
  world_with [base_ref; created;
              answer 200 (JObj [(js "name", JStr (js "README.md"))]);
              committed]
             [js "1f0e"].

Definition other_attempt : Script :=
  world_with [base_ref; created; not_found; committed] [js "2a9b"].

Definition pushed (uuid : string) : PreviewBranchResult :=
  {| branchName := js "card-" ++ js uuid;
     branchUrl := branch_url (js "card-" ++ js uuid);
     vercelImportUrl :=
       js "https://vercel.com/new/clone?repository-url="
       ++ encodeURIComponent (branch_url (js "card-" ++ js uuid)) |}.



Definition blank_message : JValue :=
  JObj [(js "fields", JObj [(js "personFirst", JStr (js "patrick"))]);
        (js "commitMessage", JStr (js "   "))].

Definition with_message : JValue :=
  JObj [(js "fields", JObj [(js "personFirst", JStr (js "patrick"))]);
        (js "commitMessage", JStr (js "  chore: personalize card "))].

(** *** Further inputs and worlds *)

(** Values for nodes [template] does not have, and one unknown key *)
Definition telex : list (jsstring * jsstring) :=
  [(js "telexLabel", js "TELEX"); (js "nickname", js "pat");
   (js "telexValue", js "10 4534")].





(** The branch has a README, which is deleted before the commit. *)
Definition with_readme : Script :=
  world_with [base_ref; created;
              answer 200 (JObj [(js "sha", JStr (js "def456"))]);
              answer 200 (JObj [(js "commit", JObj [])]);
              committed]
             [js "1f0e"].


(** The template is not on disk. *)
Definition no_template : Script :=
  {| responses := []; ids := []; clock := js "2024-05-01T12:00:00.000Z";
     files := [] |}.

End Demo.

(** One step of a run: projections of a finished run and the boolean
    tests between steps. *)
Ltac step := cbn [outcome world trace mret async_ret negb andb].

(** * Properties *)

(** ** Properties of the sanitizer *)

Lemma is_ws_SPACE : is_ws SPACE = true.
Proof. reflexivity. Qed.

Lemma trimStart_snoc s c :
  trimStart (s ++ [c]) =
    match trimStart s with
    | [] => if is_ws c then [] else [c]
    | t => t ++ [c]
    end.
Proof.
  induction s as [|a s IH]; simpl; [done|].
  destruct (is_ws a); [exact IH|done].
Qed.

Lemma trimEnd_cons c s :
  trimEnd (c :: s) =
    match trimEnd s with
    | [] => if is_ws c then [] else [c]
    | t => c :: t
    end.
Proof.
  unfold trimEnd. simpl rev. rewrite trimStart_snoc.
  destruct (trimStart (rev s)) as [|a t] eqn:E; simpl.
  - by destruct (is_ws c).
  - rewrite rev_app_distr. simpl. by destruct (rev t).
Qed.

Lemma words_are_words s : Forall word (words s).
Proof.
  induction s as [|c r IH]; simpl; [constructor|].
  destruct (is_ws c) eqn:Hc; [done|].
  destruct (starts_with_ws r).
  - constructor; [|done]. split; [done|]. by apply Forall_singleton.
  - destruct (words r) as [|w ws]; simpl.
    + constructor; [|done]. split; [done|]. by apply Forall_singleton.
    + apply Forall_cons in IH as [[Hw1 Hw2] Hws].
      constructor; [|done]. split; [done|]. by constructor.
Qed.

Lemma words_nonempty c r :
  is_ws c = false -> words (c :: r) <> [].
Proof.
  intros Hc. simpl. rewrite Hc.
  destruct (starts_with_ws r); [done|]. by destruct (words r).
Qed.

Lemma join_push_front c ws :
  ws <> [] -> join [SPACE] (push_front c ws) = c :: join [SPACE] ws.
Proof. destruct ws as [|w [|w' ws]]; done. Qed.

Lemma join_nil_inv ws : Forall word ws -> join [SPACE] ws = [] -> ws = [].
Proof.
  destruct 1 as [|w ws [Hw _] _]; [done|].
  destruct ws; simpl; [done|]. by destruct w.
Qed.

Lemma join_head ws :
  Forall word ws -> starts_with_ws (join [SPACE] ws) = true -> ws = [].
Proof.
  destruct 1 as [|w ws [Hw Hn] _]; [done|].
  destruct w as [|c w]; [done|]. apply Forall_cons in Hn as [Hc _].
  destruct ws; simpl; congruence.
Qed.

(** The heart of the matter: what is left of the replaced string once
    trailing whitespace is removed.  Inside a run nothing is emitted
    before the next word; outside a run a leading whitespace code unit
    leaves one separating space if a word follows. *)
Lemma trimEnd_replace s :
  trimEnd (replace_ws_runs true s) = collapse_spec s
  /\ trimEnd (replace_ws_runs false s) =
       (if starts_with_ws s && negb (bool_decide (words s = []))
        then [SPACE] else []) ++ collapse_spec s.
Proof.
  unfold collapse_spec.
  induction s as [|c r [IHt IHf]]; [done|].
  assert (Hc' : forall b, is_ws c = false ->
            trimEnd (replace_ws_runs b (c :: r)) = join [SPACE] (words (c :: r))).
  { intros b Hc. simpl. rewrite Hc. rewrite trimEnd_cons, IHf.
    destruct (starts_with_ws r) eqn:Hr; simpl.
    - case_bool_decide as Hw; simpl.
      + rewrite Hw. simpl. by rewrite Hc.
      + by destruct (words r).
    - destruct r as [|c' r]; [done|]. simpl in Hr.
      pose proof (words_nonempty c' r Hr) as Hne.
      rewrite join_push_front by done.
      destruct (join [SPACE] (words (c' :: r))) eqn:E; [|done].
      apply join_nil_inv in E; [done|apply words_are_words]. }
  destruct (is_ws c) eqn:Hc.
  - split; simpl; rewrite Hc; [done|].
    rewrite trimEnd_cons, IHt, is_ws_SPACE.
    case_bool_decide as Hw; simpl.
    + by rewrite Hw.
    + destruct (join [SPACE] (words r)) eqn:E; [|done].
      apply join_nil_inv in E; [done|apply words_are_words].
  - split; [by apply Hc'|]. rewrite (Hc' false eq_refl). simpl starts_with_ws.
    by rewrite Hc.
Qed.

Lemma trimStart_collapse s : trimStart (collapse_spec s) = collapse_spec s.
Proof.
  destruct (starts_with_ws (collapse_spec s)) eqn:E.
  - apply join_head in E; [|apply words_are_words].
    unfold collapse_spec. by rewrite E.
  - destruct (collapse_spec s) as [|a t]; [done|]. simpl in *. by rewrite E.
Qed.

Lemma sanitize_collapse s : sanitizeFieldValue (JStr s) = collapse_spec s.
Proof.
  cbn [sanitizeFieldValue]. unfold trim. rewrite (proj2 (trimEnd_replace s)).
  destruct (starts_with_ws s && _).
  - change (trimStart (SPACE :: collapse_spec s) = collapse_spec s).
    cbn [trimStart]. rewrite is_ws_SPACE. apply trimStart_collapse.
  - apply trimStart_collapse.
Qed.

Lemma words_word_app w s :
  word w -> starts_with_ws s = true -> words (w ++ s) = w :: words s.
Proof.
  intros [Hne Hw] Hs. induction Hw as [|c w Hc Hw IH]; [done|].
  simpl. rewrite Hc. destruct w as [|c' w].
  - simpl. by rewrite Hs.
  - rewrite IH by done. apply Forall_cons in Hw as [Hc' _]. simpl. by rewrite Hc'.
Qed.

Lemma words_join ws : Forall word ws -> words (join [SPACE] ws) = ws.
Proof.
  induction 1 as [|w ws Hw Hws IH]; [done|].
  destruct ws as [|w' ws'].
  - simpl. rewrite <- (app_nil_r w) at 1. by rewrite words_word_app.
  - change (join [SPACE] (w :: w' :: ws'))
      with (w ++ SPACE :: join [SPACE] (w' :: ws')).
    rewrite words_word_app by done. f_equal. exact IH.
Qed.

Lemma words_content s : concat (words s) = filter (fun c => negb (is_ws c)) s.
Proof.
  induction s as [|c r IH]; [done|]. simpl words.
  rewrite filter_cons. destruct (is_ws c) eqn:Hc; simpl.
  - exact IH.
  - rewrite <- IH.
    destruct (starts_with_ws r); [done|]. by destruct (words r).
Qed.

Lemma sanitize_idempotent v :
  sanitizeFieldValue (JStr (sanitizeFieldValue v)) = sanitizeFieldValue v.
Proof.
  destruct v as [| | |s| |]; try reflexivity.
  rewrite !sanitize_collapse. unfold collapse_spec.
  by rewrite words_join by apply words_are_words.
Qed.

(** C5. [sanitizeFieldValue] yields the empty string for every value that
    is not a string; for a string it yields the words of the input (its
    maximal runs of non-whitespace code units, in order and unchanged)
    joined by single spaces, so every whitespace run is collapsed to one
    space and both ends are trimmed; and sanitizing a sanitized value
    changes nothing. *)
Theorem sanitizeFieldValue_collapse_trim_idempotent :
  forall v : JValue,
    match v with
    | JStr s =>
        sanitizeFieldValue v = join [SPACE] (words s)
        /\ Forall word (words s)
        /\ concat (words s) = filter (fun c => negb (is_ws c)) s
    | _ => sanitizeFieldValue v = []
    end
    /\ sanitizeFieldValue (JStr (sanitizeFieldValue v)) = sanitizeFieldValue v.
Proof.
  intros v. split; [|apply sanitize_idempotent].
  destruct v as [| | |s| |]; try reflexivity.
  split; [apply sanitize_collapse|].
  split; [apply words_are_words|apply words_content].
Qed.

Section Objects.

Context {V : Type}.



Lemma obj_keys_set k (v : V) o :
  Object_keys (obj_set k v o) =
    if decide (k ∈ Object_keys o) then Object_keys o
    else Object_keys o ++ [k].
Proof.
  unfold Object_keys. induction o as [|[k' v'] r IH]; cbn [obj_set].
  - case_decide as Hin; [by apply elem_of_nil in Hin|done].
  - rewrite fmap_cons. cbn [fst].
    destruct (decide (k = k')) as [->|Hne].
    + rewrite decide_True by (by left). done.
    + rewrite fmap_cons, IH. cbn [fst].
      destruct (decide (k ∈ r.*1)) as [Hin|Hin].
      * rewrite decide_True by (by right). done.
      * rewrite decide_False; [done|]. by intros [?|?]%elem_of_cons.
Qed.

Lemma obj_set_fresh k (v : V) o :
  k ∉ Object_keys o -> obj_set k v o = o ++ [(k, v)].
Proof.
  unfold Object_keys. induction o as [|[k' v'] r IH]; cbn [obj_set]; [done|].
  rewrite fmap_cons. cbn [fst]. intros Hin.
  case_decide as Hk.
  - subst. destruct Hin. by left.
  - rewrite IH; [done|]. intros ?. apply Hin. by right.
Qed.


Lemma obj_get_elem k (v : V) o :
  NoDup (Object_keys o) -> (k, v) ∈ o -> obj_get k o = Some v.
Proof.
  unfold Object_keys. induction o as [|[k' v'] r IH]; cbn [obj_get].
  - by intros _ ?%elem_of_nil.
  - rewrite fmap_cons. cbn [fst].
    intros [Hk Hr]%NoDup_cons [Heq|Hin]%elem_of_cons.
    + injection Heq as -> ->. by rewrite decide_True.
    + rewrite decide_False; [by apply IH|].
      intros ->. apply Hk. by apply (list_elem_of_fmap_2 fst) in Hin.
Qed.

End Objects.

(** ** The registry as a set of ids *)

Lemma Map_of_acc {V} (pairs : list (jsstring * V)) (m : gmap jsstring V) k :
  is_Some (foldl (fun m kv => <[kv.1 := kv.2]> m) m pairs !! k)
  <-> is_Some (m !! k) \/ k ∈ pairs.*1.
Proof.
  revert m. induction pairs as [|[k' v'] r IH]; intros m; simpl.
  - split; [by left|]. intros [?|Hin]; [done|]. by apply elem_of_nil in Hin.
  - rewrite IH, lookup_insert_is_Some, elem_of_cons.
    split.
    + intros [[->|[_ ?]]|?]; [right; by left|by left|right; by right].
    + intros [?|[->|?]]; [|left; by left|by right].
      destruct (decide (k' = k)); [left; by left|left; by right].
Qed.

Lemma has_field_ids k :
  has_field k = true <-> k ∈ map id TEMPLATE_FIELD_CONFIGS.
Proof.
  unfold has_field, TEMPLATE_FIELD_MAP, Map_of.
  rewrite bool_decide_eq_true, Map_of_acc, lookup_empty.
  rewrite <- list_fmap_compose.
  split; [intros [[? ?]|?]|intros ?]; [done|done|by right].
Qed.

Lemma has_field_lookup k :
  has_field k = true <-> is_Some (TEMPLATE_FIELD_MAP !! k).
Proof. unfold has_field. apply bool_decide_eq_true. Qed.

Lemma registry_ids_are_words k :
  has_field k = true -> starts_with_letter k = true.
Proof.
  rewrite has_field_ids. revert k. apply Forall_forall.
  vm_compute. repeat constructor.
Qed.

Lemma index_keys_unknown n : has_field (Number_toString n) = false.
Proof.
  destruct (has_field _) eqn:E; [|done].
  apply registry_ids_are_words in E. unfold Number_toString in E.
  by destruct (N.to_uint n).
Qed.

(** ** The normalizer keeps registry ids only *)

Lemma obj_set_elem {V} (k k' : jsstring) (v v' : V) o :
  (k, v) ∈ obj_set k' v' o -> (k, v) = (k', v') \/ (k, v) ∈ o.
Proof.
  induction o as [|[k'' v''] r IH]; cbn [obj_set].
  - intros ?%list_elem_of_singleton. by left.
  - case_decide as Hk.
    + intros [?|?]%elem_of_cons; [by left|]. right. by right.
    + intros [->|Hin]%elem_of_cons; [right; by left|].
      destruct (IH Hin); [by left|]. right. by right.
Qed.

Lemma obj_set_NoDup {V} k (v : V) o :
  NoDup (Object_keys o) -> NoDup (Object_keys (obj_set k v o)).
Proof.
  intros Hnd. rewrite obj_keys_set. case_decide as Hin; [done|].
  apply NoDup_app. split; [done|]. split; [|apply NoDup_singleton].
  intros x Hx ->%list_elem_of_singleton. done.
Qed.

Lemma obj_set_keys_elem {V} k k' (v : V) o :
  k ∈ Object_keys (obj_set k' v o) <-> k = k' \/ k ∈ Object_keys o.
Proof.
  rewrite obj_keys_set. case_decide as Hin.
  - split; [by right|]. by intros [->|?].
  - rewrite elem_of_app, list_elem_of_singleton. tauto.
Qed.

Lemma normalize_loop_elem entries acc k v :
  (k, v) ∈ foldl normalize_step acc entries ->
  (k, v) ∈ acc
  \/ has_field k = true
     /\ exists raw, (k, raw) ∈ entries /\ v = sanitizeFieldValue raw.
Proof.
  revert acc. induction entries as [|[k' raw'] r IH]; intros acc; simpl.
  - by left.
  - intros [Hacc|(Hk & raw & Hin & ->)]%IH.
    + unfold normalize_step in Hacc. simpl in Hacc.
      destruct (has_field k') eqn:Hk'; [|by left].
      apply obj_set_elem in Hacc as [[= -> ->]|?]; [|by left].
      right. split; [done|]. exists raw'. split; [by left|done].
    + right. split; [done|]. exists raw. split; [by right|done].
Qed.

Lemma normalize_loop_keys entries acc k :
  k ∈ Object_keys (foldl normalize_step acc entries) <->
  k ∈ Object_keys acc \/ has_field k = true /\ k ∈ entries.*1.
Proof.
  revert acc. induction entries as [|[k' raw'] r IH]; intros acc; simpl.
  - split; [by left|]. intros [?|[_ Hin]]; [done|].
    by apply elem_of_nil in Hin.
  - rewrite IH, elem_of_cons. unfold normalize_step. simpl.
    destruct (has_field k') eqn:Hk'.
    + rewrite obj_set_keys_elem. split.
      * intros [[->|?]|[? ?]]; [right|by left|right]; tauto.
      * intros [?|[? [->|?]]]; tauto.
    + split; [tauto|]. intros [?|[? [->|?]]]; [tauto|congruence|tauto].
Qed.

Lemma normalize_loop_NoDup entries acc :
  NoDup (Object_keys acc) -> NoDup (Object_keys (foldl normalize_step acc entries)).
Proof.
  revert acc. induction entries as [|[k' raw'] r IH]; intros acc; simpl; [done|].
  intros Hnd. apply IH. unfold normalize_step. simpl.
  destruct (has_field k'); [by apply obj_set_NoDup|done].
Qed.

Lemma normalize_loop_unknown entries acc :
  Forall (fun kv => has_field kv.1 = false) entries ->
  foldl normalize_step acc entries = acc.
Proof.
  revert acc. induction entries as [|[k' raw'] r IH]; intros acc; simpl; [done|].
  intros [Hk Hr]%Forall_cons. rewrite IH by done.
  unfold normalize_step. simpl in *. by rewrite Hk.
Qed.

Lemma normalize_unfold values :
  normalizeFieldValues values = foldl normalize_step [] (raw_entries values).
Proof.
  destruct values as [[| [] |n|s| |]|]; try done;
    unfold normalizeFieldValues; simpl; by case_bool_decide.
Qed.

Lemma normalize_non_mapping values :
  match values with
  | Some (JObj _) => True
  | _ => normalizeFieldValues values = []
  end.
Proof.
  destruct values as [[|b|n|s|l|]|]; try done;
    rewrite normalize_unfold; try done.
  apply normalize_loop_unknown.
  cbn [raw_entries Object_entries]. apply Forall_forall. intros [k v] Hin.
  apply list_elem_of_lookup in Hin as [i Hi].
  rewrite list_lookup_imap in Hi.
  destruct (l !! i); simplify_eq/=. apply index_keys_unknown.
Qed.

(** C4. Whatever the raw [fields] value is, every key of the map that
    [normalizeFieldValues] returns is a registry id and its value is
    [sanitizeFieldValue] of a raw value the input has under that key;
    the retained keys are exactly the input's keys that the registry
    knows, each once, so unknown keys are dropped; and an input that is
    not a mapping (undefined, null, a boolean, a number, a string, and
    also an array) gives the empty map. *)
Theorem normalizeFieldValues_registry_only :
  forall values : option JValue,
    (forall k v, (k, v) ∈ normalizeFieldValues values ->
       is_Some (TEMPLATE_FIELD_MAP !! k)
       /\ exists raw, (k, raw) ∈ raw_entries values
                      /\ v = sanitizeFieldValue raw)
    /\ (forall k, k ∈ Object_keys (normalizeFieldValues values) <->
          is_Some (TEMPLATE_FIELD_MAP !! k) /\ k ∈ (raw_entries values).*1)
    /\ NoDup (Object_keys (normalizeFieldValues values))
    /\ match values with
       | Some (JObj _) => True
       | _ => normalizeFieldValues values = []
       end.
Proof.
  intros values. split; [|split; [|split]].
  - intros k v Hin. rewrite normalize_unfold in Hin.
    apply normalize_loop_elem in Hin as [Hin|[Hk Hraw]].
    + by apply elem_of_nil in Hin.
    + split; [by apply has_field_lookup|done].
  - intros k. rewrite normalize_unfold, normalize_loop_keys, has_field_lookup.
    split; [intros [Hin|?]; [by apply elem_of_nil in Hin|done]|by right].
  - rewrite normalize_unfold. apply normalize_loop_NoDup. constructor.
  - apply normalize_non_mapping.
Qed.

Section TemplateEngine.

Context {P : Platform} {D : Dom}.

(** *** The applied map *)

Lemma write_fields_applied doc acc values :
  NoDup (Object_keys acc) ->
  NoDup (Object_keys values) ->
  (forall k, k ∈ Object_keys acc -> k ∉ Object_keys values) ->
  (foldl write_entry (doc, acc) values).2 =
    acc ++ filter (fun kv => has_field kv.1 = true) values.
Proof.
  revert doc acc. induction values as [|[k v] r IH]; intros doc acc Hacc Hnd Hdisj.
  - simpl. by rewrite app_nil_r.
  - apply NoDup_cons in Hnd as [Hk Hr]. cbn [foldl].
    unfold write_entry at 2. cbn [fst snd]. rewrite filter_cons. cbn [fst].
    destruct (TEMPLATE_FIELD_MAP !! k) as [config|] eqn:E.
    + assert (Hf : has_field k = true) by (apply has_field_lookup; eauto).
      rewrite decide_True by done.
      assert (Hfresh : k ∉ Object_keys acc).
      { intros Hin. apply (Hdisj _ Hin). by left. }
      rewrite IH; [| |done|].
      * rewrite obj_set_fresh by done. by rewrite <- app_assoc.
      * by apply obj_set_NoDup.
      * intros k' [->|Hin]%obj_set_keys_elem; [done|].
        intros Hin'. apply (Hdisj _ Hin). by right.
    + assert (Hf : has_field k <> true).
      { rewrite has_field_lookup, E. by intros [? ?]. }
      rewrite decide_False by done. apply IH; [done|done|].
      intros k' Hin Hin'. apply (Hdisj _ Hin). by right.
Qed.

Lemma applyFields_applied templateHtml values :
  NoDup (Object_keys values) ->
  (applyFieldsToTemplate templateHtml values).2 =
    filter (fun kv => has_field kv.1 = true) values.
Proof.
  intros Hnd. unfold applyFieldsToTemplate, write_fields.
  pose proof (write_fields_applied (parseHTML templateHtml) [] values) as Hw.
  destruct (foldl write_entry _ values) as [doc applied]. cbn [snd] in *.
  apply Hw; [constructor|done|]. by intros k ?%elem_of_nil.
Qed.

(** C3. For a values map (an object: its keys are distinct), the
    [applied] map that [applyFieldsToTemplate] returns has exactly the
    keys of the values map that the registry knows, every one of them
    and no other, and each is bound to the value that was passed in. *)
Theorem applyFields_applied_exact :
  forall (templateHtml : jsstring) (values : list (jsstring * jsstring)),
    NoDup (Object_keys values) ->
    let applied := (applyFieldsToTemplate templateHtml values).2 in
    (forall k, k ∈ Object_keys applied <->
       k ∈ Object_keys values /\ is_Some (TEMPLATE_FIELD_MAP !! k))
    /\ (forall k, k ∈ Object_keys applied ->
          obj_get k applied = obj_get k values)
    /\ NoDup (Object_keys applied).
Proof.
  intros templateHtml values Hnd applied.
  assert (Happ : applied = filter (fun kv => has_field kv.1 = true) values)
    by by apply applyFields_applied.
  assert (Hkeys : forall k, k ∈ Object_keys applied <->
            k ∈ Object_keys values /\ is_Some (TEMPLATE_FIELD_MAP !! k)).
  { intros k. rewrite Happ, <- has_field_lookup. unfold Object_keys.
    rewrite !list_elem_of_fmap. split.
    - intros ([k' v] & -> & [Hf Hin]%list_elem_of_filter). eauto.
    - intros [([k' v] & -> & Hin) Hf]. exists (k', v).
      split; [done|]. by apply list_elem_of_filter. }
  assert (Hnd' : NoDup (Object_keys applied)).
  { rewrite Happ. unfold Object_keys in *. clear -Hnd.
    induction values as [|[k v] r IH]; [constructor|].
    apply NoDup_cons in Hnd as [Hk Hr]. rewrite filter_cons.
    case_decide; [|by apply IH]. rewrite fmap_cons. apply NoDup_cons.
    split; [|by apply IH]. intros Hin. apply Hk.
    apply list_elem_of_fmap in Hin as (kv & -> & [_ Hin]%list_elem_of_filter).
    by apply (list_elem_of_fmap_2 fst) in Hin. }
  split; [done|]. split; [|done].
  intros k Hin. unfold Object_keys in Hin.
  apply list_elem_of_fmap in Hin as ([k' v] & -> & Hin). cbn [fst].
  rewrite (obj_get_elem k' v applied Hnd' Hin).
  symmetry. apply obj_get_elem; [done|].
  rewrite Happ in Hin. by apply list_elem_of_filter in Hin as [_ ?].
Qed.

End TemplateEngine.

Lemma trimEnd_no_ws w : no_ws w -> trimEnd w = w.
Proof.
  induction 1 as [|c w Hc _ IH]; [done|].
  rewrite trimEnd_cons, IH, Hc. by destruct w.
Qed.

Lemma trimEnd_app_tidy a b :
  b <> [] -> trimEnd b = b -> trimEnd (a ++ b) = a ++ b.
Proof.
  intros Hb Ht. induction a as [|c a IH]; [done|].
  simpl. rewrite trimEnd_cons, IH. destruct (a ++ b) eqn:E; [|done].
  by apply app_eq_nil in E as [_ ?].
Qed.

Lemma trimEnd_app a b :
  trimEnd a = a -> trimEnd b = b -> trimEnd (a ++ b) = a ++ b.
Proof.
  intros Ha Hb. destruct b as [|c b].
  - by rewrite app_nil_r.
  - by apply trimEnd_app_tidy.
Qed.

Lemma trimEnd_tail c r : trimEnd (c :: r) = c :: r -> trimEnd r = r.
Proof.
  rewrite trimEnd_cons. destruct (trimEnd r) eqn:E.
  - destruct (is_ws c); [done|]. by intros [= <-].
  - by intros [= <-].
Qed.

Lemma trim_tidy s : tidy s -> trim s = s.
Proof.
  intros [Hs He]. unfold trim. rewrite He.
  destruct s as [|c r]; [done|]. simpl in *. by rewrite Hs.
Qed.

Lemma tidy_nonempty s : tidy s -> s <> [].
Proof. by intros [Hs _] ->. Qed.

Lemma join_words_tidy ws :
  Forall word ws -> ws <> [] -> tidy (join [SPACE] ws).
Proof.
  intros Hws Hne. split.
  - destruct (starts_with_ws _) eqn:E; [|done]. by apply join_head in E.
  - clear Hne. induction Hws as [|w ws [Hw Hn] Hws IH]; [done|].
    destruct ws as [|w' ws'].
    + by apply trimEnd_no_ws.
    + change (join [SPACE] (w :: w' :: ws'))
        with (w ++ [SPACE] ++ join [SPACE] (w' :: ws')).
      rewrite (app_assoc w [SPACE]). apply trimEnd_app_tidy; [|done].
      intros E. by apply join_nil_inv in E.
Qed.

Lemma sanitize_tidy v :
  sanitizeFieldValue v <> [] -> tidy (sanitizeFieldValue v).
Proof.
  destruct v as [| | |s| |]; try done.
  rewrite sanitize_collapse. unfold collapse_spec. intros Hne.
  apply join_words_tidy; [apply words_are_words|]. by intros E; rewrite E in Hne.
Qed.

Lemma registry_personFirst :
  TEMPLATE_FIELD_MAP !! js "personFirst" = Some personFirstConfig.
Proof. by vm_compute. Qed.

Lemma registry_personLast :
  TEMPLATE_FIELD_MAP !! js "personLast" = Some personLastConfig.
Proof. by vm_compute. Qed.

Section DerivedTitle.

Context {P : Platform} {D : Dom}.

Lemma capitalizeWord_tidy s :
  case_mapping_tidy -> tidy s -> tidy (capitalizeWord s).
Proof.
  intros [Hu Hut Hlt] [Hs He]. destruct s as [|c r]; [done|].
  simpl in Hs. cbn [capitalizeWord].
  assert (Hc : starts_with_ws (toUpperCase [c]) = false) by by apply Hu.
  split.
  - by destruct (toUpperCase [c]).
  - apply trimEnd_app.
    + apply Hut. rewrite trimEnd_cons. simpl. by rewrite Hs.
    + apply Hlt. by apply trimEnd_tail in He.
Qed.

Lemma join_two_tidy a b : tidy a -> tidy b -> tidy (a ++ [SPACE] ++ b).
Proof.
  intros [Ha _] [Hb Hb']. split.
  - by destruct a.
  - rewrite app_assoc. apply trimEnd_app_tidy; [|done]. by intros ->.
Qed.

Lemma filter_Boolean_two a b :
  filter_Boolean [a; b] =
    match a with [] => [] | _ => [a] end
    ++ match b with [] => [] | _ => [b] end.
Proof.
  unfold filter_Boolean. rewrite !filter_cons, filter_nil.
  destruct a, b; repeat case_decide; done.
Qed.

Lemma set_title_nonempty doc t :
  t <> [] ->
  match t with
  | [] => doc
  | _ :: _ =>
      match querySelector doc (js "title") with
      | Some titleNode => set_textContent doc titleNode t
      | None => doc
      end
  end = set_title doc t.
Proof. by destruct t. Qed.

Lemma derive_title_cases doc :
  case_mapping_tidy ->
  let first := sanitizeFieldValue (JStr (readTemplateField doc personFirstConfig)) in
  let last := sanitizeFieldValue (JStr (readTemplateField doc personLastConfig)) in
  derive_title doc =
    match first, last with
    | [], [] => doc
    | _ :: _, [] => set_title doc (capitalizeWord first)
    | [], _ :: _ => set_title doc (capitalizeWord last)
    | _ :: _, _ :: _ =>
        set_title doc (capitalizeWord first ++ [SPACE] ++ capitalizeWord last)
    end.
Proof.
  intros Hcase first last. unfold derive_title.
  rewrite registry_personFirst, registry_personLast. fold first last.
  pose proof (sanitize_tidy (JStr (readTemplateField doc personFirstConfig))) as Hf.
  pose proof (sanitize_tidy (JStr (readTemplateField doc personLastConfig))) as Hl.
  fold first in Hf. fold last in Hl. rewrite filter_Boolean_two.
  destruct first as [|a x] eqn:Ef, last as [|b y] eqn:El; cbn [app map join].
  - done.
  - assert (Ht : tidy (capitalizeWord (b :: y)))
      by (apply capitalizeWord_tidy; auto).
    rewrite (trim_tidy _ Ht). apply set_title_nonempty, tidy_nonempty, Ht.
  - assert (Ht : tidy (capitalizeWord (a :: x)))
      by (apply capitalizeWord_tidy; auto).
    rewrite (trim_tidy _ Ht). apply set_title_nonempty, tidy_nonempty, Ht.
  - assert (Ht : tidy (capitalizeWord (a :: x) ++ [SPACE] ++ capitalizeWord (b :: y))).
    { apply join_two_tidy; apply capitalizeWord_tidy; auto. }
    change (js " ") with [SPACE]. rewrite (trim_tidy _ Ht).
    apply set_title_nonempty, tidy_nonempty, Ht.
Qed.

(** C1 (amended). The derived title is computed from the [personFirst]
    and [personLast] fields read back from the document after the
    writes and sanitized again.  When both are non-empty, the title
    element's text becomes the two, each capitalized, joined by one
    space.  When exactly one is non-empty, the title element's text
    becomes that one, capitalized.  Only when both are empty is the
    title left as it was.  (Stated for case conversions that keep the
    ends of a string free of whitespace, as ECMAScript's do.) *)
Theorem applyFields_derived_title :
  case_mapping_tidy ->
  forall (templateHtml : jsstring) (values : list (jsstring * jsstring)),
    let doc := (write_fields (parseHTML templateHtml) values).1 in
    let first := sanitizeFieldValue (JStr (readTemplateField doc personFirstConfig)) in
    let last := sanitizeFieldValue (JStr (readTemplateField doc personLastConfig)) in
    let html := (applyFieldsToTemplate templateHtml values).1 in
    (first <> [] -> last <> [] ->
       html = DOCTYPE ++ outerHTML
                (set_title doc (capitalizeWord first ++ [SPACE] ++ capitalizeWord last)))
    /\ (first <> [] -> last = [] ->
          html = DOCTYPE ++ outerHTML (set_title doc (capitalizeWord first)))
    /\ (first = [] -> last <> [] ->
          html = DOCTYPE ++ outerHTML (set_title doc (capitalizeWord last)))
    /\ (first = [] -> last = [] -> html = DOCTYPE ++ outerHTML doc).
Proof.
  intros Hcase templateHtml values doc first last html.
  assert (Hhtml : html = DOCTYPE ++ outerHTML (derive_title doc)).
  { unfold html, doc, applyFieldsToTemplate.
    by destruct (write_fields (parseHTML templateHtml) values). }
  rewrite Hhtml, (derive_title_cases doc Hcase). fold first last.
  destruct first, last; repeat split; intros; done.
Qed.

End DerivedTitle.

Section Monad.

Context {E : Type}.

Lemma bind_returned {A B} (m : Async E A) (f : A -> Async E B) e a e' t :
  m e = MkRan (Returned a) e' t -> (m ≫= f) e = after t (f a e').
Proof. intros H. unfold mbind, async_bind. by rewrite H. Qed.

Lemma after_after {A} t t' (r : Ran E A) :
  after t (after t' r) = after (t ++ t') r.
Proof. unfold after. cbn. by rewrite app_assoc. Qed.

End Monad.

Section Publishing.

Context {P : Platform} {D : Dom} {E : Type} {W : World E}.
Context {repoConfig : RepoConfig}.

(** *** The client's contract *)

Lemma githubPatRequest_unconfigured path init e :
  pat repoConfig = [] ->
  githubPatRequest path init e =
    MkRan (Thrown (Error (js "GitHub PAT is not configured."))) e [].
Proof. intros Hpat. unfold githubPatRequest. by rewrite Hpat. Qed.

Lemma githubPatRequest_run path init e :
  pat repoConfig <> [] ->
  githubPatRequest path init e =
    match fetch (api path) (with_github_headers init) e with
    | (Some response, e') =>
        MkRan (Returned response) e'
          (EvFetch (api path) (with_github_headers init)
           :: if ok response then [] else [request_failed path response])
    | (None, e') =>
        MkRan (Thrown FetchFailed) e'
          [EvFetch (api path) (with_github_headers init)]
    end.
Proof.
  intros Hpat. unfold githubPatRequest.
  destruct (pat repoConfig); [done|].
  unfold mbind, async_bind, do_fetch.
  destruct (fetch _ _ e) as [[response|] e']; [|done].
  cbn. by destruct (ok response).
Qed.



Lemma incomplete_pat : incomplete repoConfig = false -> pat repoConfig <> [].
Proof.
  unfold incomplete. intros H Hp. rewrite Hp in H.
  rewrite (bool_decide_eq_true_2 (@nil N = [])) in H by done.
  by rewrite orb_true_r in H.
Qed.

Lemma ok_not_404 r : ok r = true -> (status r =? 404) = false.
Proof.
  unfold ok. intros [_ H]%andb_true_iff. apply N.leb_le in H.
  apply N.eqb_neq. lia.
Qed.

Lemma removeReadme_lookup_failed branchName e response e' :
  pat repoConfig <> [] ->
  fetch (api (readme_lookup_path branchName)) (with_github_headers get_init) e
    = (Some response, e') ->
  ok response = false ->
  removeReadmeFromBranch branchName e =
    MkRan (Returned tt) e'
      (lookup_event branchName
       :: request_failed (readme_lookup_path branchName) response
       :: if status response =? 404 then [] else [readme_unloadable response]).
Proof.
  intros Hp Hfetch Hok. unfold removeReadmeFromBranch, mbind, async_bind.
  rewrite githubPatRequest_run, Hfetch, Hok by done. step.
  destruct (status response =? 404); step; [done|]. by rewrite Hok.
Qed.

Lemma removeReadme_sha_missing branchName e response e' data :
  pat repoConfig <> [] ->
  fetch (api (readme_lookup_path branchName)) (with_github_headers get_init) e
    = (Some response, e') ->
  ok response = true ->
  body_json response = Some data ->
  truthy (get_property (Some data) (js "sha")) = None ->
  removeReadmeFromBranch branchName e =
    MkRan (Returned tt) e' [lookup_event branchName; readme_sha_missing].
Proof.
  intros Hp Hfetch Hok Hjson Hsha.
  unfold removeReadmeFromBranch, mbind, async_bind.
  rewrite githubPatRequest_run, Hfetch, Hok by done. step.
  rewrite (ok_not_404 _ Hok), Hok. step. unfold response_json. rewrite Hjson.
  step. by rewrite Hsha.
Qed.

Lemma removeReadme_deleted branchName e response e1 data readmeSha deleted e' :
  pat repoConfig <> [] ->
  fetch (api (readme_lookup_path branchName)) (with_github_headers get_init) e
    = (Some response, e1) ->
  ok response = true ->
  body_json response = Some data ->
  truthy (get_property (Some data) (js "sha")) = Some readmeSha ->
  fetch (api readme_path) (with_github_headers (delete_init branchName readmeSha)) e1
    = (Some deleted, e') ->
  removeReadmeFromBranch branchName e =
    MkRan (Returned tt) e'
      (lookup_event branchName :: delete_event branchName readmeSha
       :: if ok deleted then []
          else request_failed readme_path deleted
               :: if status deleted =? 404 then []
                  else [readme_delete_failed deleted]).
Proof.
  intros Hp Hfetch Hok Hjson Hsha Hdel.
  unfold removeReadmeFromBranch, mbind, async_bind.
  rewrite githubPatRequest_run, Hfetch, Hok by done. step.
  rewrite (ok_not_404 _ Hok), Hok. step. unfold response_json. rewrite Hjson.
  step. rewrite Hsha. rewrite githubPatRequest_run, Hdel by done. step.
  destruct (ok deleted) eqn:Hd; step; [done|].
  by destruct (status deleted =? 404).
Qed.

Lemma commit_content_run branchName content commitMessage e :
  pat repoConfig <> [] ->
  commit_content branchName content commitMessage e =
    match fetch (api update_path)
            (with_github_headers (update_init content commitMessage branchName)) e with
    | (Some updated, e') =>
        if ok updated then
          MkRan (Returned {| branchName := branchName;
                             branchUrl := branch_url branchName;
                             vercelImportUrl :=
                               js "https://vercel.com/new/clone?repository-url="
                               ++ encodeURIComponent (branch_url branchName) |})
                e' [update_event branchName content commitMessage]
        else
          MkRan (Thrown (Error (js "Unable to update template file."))) e'
                [update_event branchName content commitMessage;
                 request_failed update_path updated;
                 EvConsole LevelError [
                   LStr (js "[/github/preview] Failed to update template file.");
                   LVal (status_and_body updated)]]
    | (None, e') =>
        MkRan (Thrown FetchFailed) e'
              [update_event branchName content commitMessage]
    end.
Proof.
  intros Hp. unfold commit_content, mbind, async_bind.
  rewrite githubPatRequest_run by done.
  destruct (fetch _ _ e) as [[updated|] e']; [|done].
  step. by destruct (ok updated).
Qed.

Lemma githubPatRequest_ok path init e response e' :
  pat repoConfig <> [] ->
  fetch (api path) (with_github_headers init) e = (Some response, e') ->
  ok response = true ->
  githubPatRequest path init e =
    MkRan (Returned response) e' [EvFetch (api path) (with_github_headers init)].
Proof. intros Hp Hf Hok. by rewrite githubPatRequest_run, Hf, Hok. Qed.

Lemma response_json_run r data (e : E) :
  body_json r = Some data -> response_json r e = MkRan (Returned data) e [].
Proof. intros H. unfold response_json. by rewrite H. Qed.

Lemma push_after_branch content commitMessage e0 branchName e3 prefix :
  branch_created e0 branchName e3 prefix ->
  pushPreviewBranch content commitMessage e0 =
    after prefix ((removeReadmeFromBranch branchName;;
                   commit_content branchName content commitMessage) e3).
Proof.
  intros [base e1 data baseSha uuid e2 created e3' Hc Hbase Hok Hjson Hsha Hu Hcr Hok'].
  pose proof (incomplete_pat Hc) as Hp.
  unfold pushPreviewBranch. rewrite Hc.
  rewrite (bind_returned _ _ _ _ _ _ (githubPatRequest_ok _ _ _ _ _ Hp Hbase Hok)).
  rewrite Hok. cbn [negb].
  rewrite (bind_returned _ _ _ _ _ _ (response_json_run _ _ _ Hjson)).
  rewrite Hsha, after_after.
  erewrite (bind_returned do_randomUUID);
    [|unfold do_randomUUID; by rewrite Hu].
  rewrite (bind_returned _ _ _ _ _ _ (githubPatRequest_ok _ _ _ _ _ Hp Hcr Hok')).
  rewrite Hok'. cbn [negb]. by rewrite !after_after.
Qed.

Lemma readme_then_commit branchName content commitMessage e e' logged :
  removeReadmeFromBranch branchName e = MkRan (Returned tt) e' logged ->
  (removeReadmeFromBranch branchName;;
   commit_content branchName content commitMessage) e
  = after logged (commit_content branchName content commitMessage e').
Proof. intros H. by rewrite (bind_returned _ _ _ _ _ _ H). Qed.

Lemma commit_content_starts branchName content commitMessage e :
  pat repoConfig <> [] ->
  exists rest,
    trace (commit_content branchName content commitMessage e)
    = update_event branchName content commitMessage :: rest.
Proof.
  intros Hp. rewrite commit_content_run by done.
  destruct (fetch _ _ e) as [[updated|] e']; [destruct (ok updated)|];
    by eexists.
Qed.

(** *** The best-effort README step *)

(** C10. When the README lookup succeeds and its payload has no [sha]
    field, the README step logs the warning and returns having sent
    the lookup only, no DELETE; the publish goes on with the content
    commit, whose outcome is the outcome of the publish. *)
Theorem readme_without_sha_skips_delete :
  forall (content commitMessage : jsstring) (e0 : E) (branchName : jsstring)
         (e3 : E) (prefix : list Event) (response : Response) (e4 : E)
         (data : JValue),
    branch_created e0 branchName e3 prefix ->
    fetch (api (readme_lookup_path branchName)) (with_github_headers get_init) e3
      = (Some response, e4) ->
    ok response = true ->
    body_json response = Some data ->
    get_property (Some data) (js "sha") = None ->
    removeReadmeFromBranch branchName e3
      = MkRan (Returned tt) e4
          [EvFetch (api (readme_lookup_path branchName))
             (with_github_headers get_init);
           EvConsole LevelWarn
             [LStr (js "[/github/preview] README metadata missing SHA.")]]
    /\ pushPreviewBranch content commitMessage e0
       = after (prefix ++ [lookup_event branchName; readme_sha_missing])
           (commit_content branchName content commitMessage e4)
    /\ exists rest,
         trace (commit_content branchName content commitMessage e4)
         = update_event branchName content commitMessage :: rest.
Proof.
  intros content commitMessage e0 branchName e3 prefix response e4 data
    Hb Hfetch Hok Hjson Hsha.
  assert (Hp : pat repoConfig <> []) by (destruct Hb; by apply incomplete_pat).
  assert (Hrun : removeReadmeFromBranch branchName e3
            = MkRan (Returned tt) e4 [lookup_event branchName; readme_sha_missing]).
  { eapply removeReadme_sha_missing; eauto. unfold truthy. by rewrite Hsha. }
  split; [exact Hrun|]. split; [|by apply commit_content_starts].
  rewrite (push_after_branch _ _ _ _ _ _ Hb).
  by rewrite (readme_then_commit _ _ _ _ _ _ Hrun), after_after.
Qed.

(** *** The README step when it fails *)


Lemma removeReadme_unparsable branchName e response e' :
  pat repoConfig <> [] ->
  fetch (api (readme_lookup_path branchName)) (with_github_headers get_init) e
    = (Some response, e') ->
  ok response = true ->
  body_json response = None ->
  removeReadmeFromBranch branchName e
  = MkRan (Thrown SyntaxError) e' [lookup_event branchName].
Proof.
  intros Hp Hfetch Hok Hjson.
  unfold removeReadmeFromBranch, mbind, async_bind.
  rewrite githubPatRequest_run, Hfetch, Hok by done. step.
  rewrite (ok_not_404 _ Hok), Hok. step. unfold response_json. by rewrite Hjson.
Qed.

Lemma removeReadme_delete_rejected branchName e response e1 data readmeSha e' :
  pat repoConfig <> [] ->
  fetch (api (readme_lookup_path branchName)) (with_github_headers get_init) e
    = (Some response, e1) ->
  ok response = true ->
  body_json response = Some data ->
  truthy (get_property (Some data) (js "sha")) = Some readmeSha ->
  fetch (api readme_path) (with_github_headers (delete_init branchName readmeSha)) e1
    = (None, e') ->
  removeReadmeFromBranch branchName e
  = MkRan (Thrown FetchFailed) e'
      [lookup_event branchName; delete_event branchName readmeSha].
Proof.
  intros Hp Hfetch Hok Hjson Hsha Hdel.
  unfold removeReadmeFromBranch, mbind, async_bind.
  rewrite githubPatRequest_run, Hfetch, Hok by done. step.
  rewrite (ok_not_404 _ Hok), Hok. step. unfold response_json. rewrite Hjson.
  step. rewrite Hsha. by rewrite githubPatRequest_run, Hdel.
Qed.





(** *** The generated branch name *)

Lemma bind_trace {A B} (m : Async E A) (f : A -> Async E B) e :
  trace ((m ≫= f) e) =
    trace (m e) ++ match outcome (m e) with
                   | Returned a => trace (f a (world (m e)))
                   | Thrown _ => []
                   end.
Proof.
  unfold mbind, async_bind. destruct (outcome (m e)); cbn [trace]; [done|].
  by rewrite app_nil_r.
Qed.

Lemma bind_outcome {A B} (m : Async E A) (f : A -> Async E B) e :
  outcome ((m ≫= f) e) =
    match outcome (m e) with
    | Returned a => outcome (f a (world (m e)))
    | Thrown x => Thrown x
    end.
Proof. unfold mbind, async_bind. by destruct (outcome (m e)). Qed.

Lemma quiet_bind {A B} (m : Async E A) (f : A -> Async E B) :
  quiet m -> (forall a, quiet (f a)) -> quiet (m ≫= f).
Proof.
  intros Hm Hf e. rewrite bind_trace. unfold uuids_of. rewrite omap_app.
  fold (uuids_of (trace (m e))). rewrite Hm.
  destruct (outcome (m e)); [apply Hf|done].
Qed.

Lemma quiet_ret {A} (a : A) : quiet (mret a : Async E A).
Proof. done. Qed.

Lemma quiet_throw {A} x : quiet (@throw E A x).
Proof. done. Qed.

Lemma quiet_console level args : quiet (E:=E) (log (EvConsole level args)).
Proof. done. Qed.

Lemma quiet_githubPatRequest path init : quiet (githubPatRequest path init).
Proof.
  intros e. destruct (decide (pat repoConfig = [])) as [Hp|Hp].
  - by rewrite githubPatRequest_unconfigured.
  - rewrite githubPatRequest_run by done.
    destruct (fetch _ _ e) as [[response|] e']; [|done].
    by destruct (ok response).
Qed.

Lemma quiet_response_json r : quiet (E:=E) (response_json r).
Proof. unfold response_json. by destruct (body_json r). Qed.

Lemma quiet_removeReadme branchName : quiet (removeReadmeFromBranch branchName).
Proof.
  unfold removeReadmeFromBranch.
  apply quiet_bind; [apply quiet_githubPatRequest|]. intros response.
  destruct (status response =? 404); [apply quiet_ret|].
  destruct (negb (ok response)); [apply quiet_console|].
  apply quiet_bind; [apply quiet_response_json|]. intros data.
  destruct (truthy _); [|apply quiet_console].
  apply quiet_bind; [apply quiet_githubPatRequest|]. intros deleted.
  destruct (_ && _); [apply quiet_console|apply quiet_ret].
Qed.

Lemma quiet_commit_content branchName content commitMessage :
  quiet (commit_content branchName content commitMessage).
Proof.
  unfold commit_content.
  apply quiet_bind; [apply quiet_githubPatRequest|]. intros updated.
  destruct (negb (ok updated)); [|apply quiet_ret].
  apply quiet_bind; [apply quiet_console|]. intros _. apply quiet_throw.
Qed.

Lemma names_bind {A} b (m : Async E A) f :
  (forall a, names b (f a)) -> names b (m ≫= f).
Proof.
  intros Hf e r. rewrite bind_outcome.
  destruct (outcome (m e)); [apply Hf|done].
Qed.

Lemma names_throw b x : names b (@throw E _ x).
Proof. by intros e r. Qed.

Lemma names_commit_content branchName content commitMessage :
  names branchName (commit_content branchName content commitMessage).
Proof.
  unfold commit_content. apply names_bind. intros updated.
  destruct (negb (ok updated)).
  - apply names_bind. intros _. apply names_throw.
  - by intros e r [= <-].
Qed.

(** What remains of [pushPreviewBranch] once the identifier is drawn *)
Lemma after_uuid content commitMessage baseSha uuid :
  let rest :=
    createRefResponse ← githubPatRequest refs_path
                          (create_ref_init (js "card-" ++ uuid) baseSha);
    if negb (ok createRefResponse) then
      log (EvConsole LevelError [
             LStr (js "[/github/preview] Failed to create branch.");
             LVal (status_and_body createRefResponse)]);;
      throw (Error (js "Unable to create preview branch."))
    else
      removeReadmeFromBranch (js "card-" ++ uuid);;
      commit_content (js "card-" ++ uuid) content commitMessage in
  quiet rest /\ names (js "card-" ++ uuid) rest.
Proof.
  split.
  - apply quiet_bind; [apply quiet_githubPatRequest|]. intros created.
    destruct (negb (ok created)).
    + apply quiet_bind; [apply quiet_console|]. intros _. apply quiet_throw.
    + apply quiet_bind; [apply quiet_removeReadme|]. intros _.
      apply quiet_commit_content.
  - apply names_bind. intros created. destruct (negb (ok created)).
    + apply names_bind. intros _. apply names_throw.
    + apply names_bind. intros _. apply names_commit_content.
Qed.

Lemma draws_one_throw x (e : E) : draws_one (throw x) e.
Proof. by left. Qed.

Lemma draws_one_bind_quiet {A} (m : Async E A) f e :
  quiet m -> (forall a e', draws_one (f a) e') -> draws_one (m ≫= f) e.
Proof.
  intros Hq Hf. unfold draws_one. rewrite bind_trace, bind_outcome.
  unfold uuids_of at 1 2. rewrite omap_app.
  fold (uuids_of (trace (m e))). rewrite (Hq e). cbn [app].
  destruct (outcome (m e)) as [a|x]; [apply Hf|by left].
Qed.

Lemma randomUUID_bind {B} (f : jsstring -> Async E B) e :
  (do_randomUUID ≫= f) e =
    after [EvRandomUUID (randomUUID e).1] (f (randomUUID e).1 (randomUUID e).2).
Proof.
  apply bind_returned. unfold do_randomUUID. by destruct (randomUUID e).
Qed.

Lemma push_draws_one content commitMessage e :
  draws_one (pushPreviewBranch content commitMessage) e.
Proof.
  unfold pushPreviewBranch.
  destruct (incomplete repoConfig); [apply draws_one_throw|].
  apply draws_one_bind_quiet; [apply quiet_githubPatRequest|]. intros base e1.
  destruct (negb (ok base)); [apply draws_one_throw|].
  apply draws_one_bind_quiet; [apply quiet_response_json|]. intros data e2.
  destruct (truthy _) as [baseSha|]; [|apply draws_one_throw].
  right. rewrite randomUUID_bind.
  destruct (after_uuid content commitMessage baseSha (randomUUID e2).1) as [Hq Hn].
  exists (randomUUID e2).1. split.
  - unfold after. cbn [trace]. unfold uuids_of. rewrite omap_app.
    cbn [omap list_omap app]. f_equal. apply Hq.
  - intros r. unfold after. cbn [outcome]. apply Hn.
Qed.

(** C6. A publish attempt that returns drew exactly one identifier
    from [randomUUID] and returns the branch name [card-] followed by
    it (no attempt draws more than one); so two attempts whose
    identifiers differ return different branch names. *)
Theorem branch_name_from_fresh_id :
  forall (content1 message1 : jsstring) (e1 : E)
         (content2 message2 : jsstring) (e2 : E)
         (r1 r2 : PreviewBranchResult),
    outcome (pushPreviewBranch content1 message1 e1) = Returned r1 ->
    outcome (pushPreviewBranch content2 message2 e2) = Returned r2 ->
    exists u1 u2,
      uuids_of (trace (pushPreviewBranch content1 message1 e1)) = [u1]
      /\ uuids_of (trace (pushPreviewBranch content2 message2 e2)) = [u2]
      /\ branchName r1 = js "card-" ++ u1
      /\ branchName r2 = js "card-" ++ u2
      /\ (u1 <> u2 -> branchName r1 <> branchName r2).
Proof.
  intros content1 message1 e1 content2 message2 e2 r1 r2 H1 H2.
  destruct (push_draws_one content1 message1 e1) as [[_ Hn]|(u1 & Hu1 & Hb1)];
    [by destruct (Hn r1)|].
  destruct (push_draws_one content2 message2 e2) as [[_ Hn]|(u2 & Hu2 & Hb2)];
    [by destruct (Hn r2)|].
  exists u1, u2. rewrite (Hb1 _ H1), (Hb2 _ H2).
  repeat split; try done.
  intros Hne Heq. by apply app_inv_head in Heq.
Qed.

(** *** The handler *)

Lemma property_of_run body k (e : E) :
  body <> JNull ->
  property_of body k e = MkRan (Returned (get_property (Some body) k)) e [].
Proof. by destruct body. Qed.


Lemma publish_reply_failed html applied commitMessage e x :
  outcome (pushPreviewBranch html commitMessage e) = Thrown x ->
  outcome (publish_reply html applied commitMessage e) = Returned publish_failed.
Proof.
  intros H. unfold publish_reply, try_catch.
  rewrite bind_outcome, H. cbn [outcome]. by rewrite bind_outcome.
Qed.


Lemma default_commit_message_run e :
  default_commit_message e = default_message_run e.
Proof.
  assert (Hd : do_Date_toISOString e
            = MkRan (Returned (Date_toISOString e).1) (Date_toISOString e).2
                [EvDate (Date_toISOString e).1]).
  { unfold do_Date_toISOString. by destruct (Date_toISOString e). }
  unfold default_commit_message, default_message_run.
  by rewrite (bind_returned _ _ _ _ _ _ Hd).
Qed.

Lemma commit_message_returns body e :
  exists commitMessage e' t,
    commit_message_of body e = MkRan (Returned commitMessage) e' t.
Proof.
  unfold commit_message_of.
  destruct (get_property _ _) as [[| | |s| |]|];
    try (rewrite default_commit_message_run; by do 3 eexists).
  destruct (trim s); [|by do 3 eexists].
  rewrite default_commit_message_run. by do 3 eexists.
Qed.

Lemma handler_publishes body e templateHtml e1 :
  incomplete repoConfig = false ->
  body <> JNull ->
  normalizeFieldValues (get_property (Some body) (js "fields")) <> [] ->
  readFile previewTemplatePath e = (Some templateHtml, e1) ->
  exists commitMessage e2 t,
    commit_message_of body e1 = MkRan (Returned commitMessage) e2 t
    /\ preview_handler (Some body) e
       = after (EvReadFile previewTemplatePath :: t)
           (publish_reply
              (applyFieldsToTemplate templateHtml
                 (normalizeFieldValues (get_property (Some body) (js "fields")))).1
              (applyFieldsToTemplate templateHtml
                 (normalizeFieldValues (get_property (Some body) (js "fields")))).2
              commitMessage e2).
Proof.
  intros Hc Hnull Hfields Hread.
  destruct (commit_message_returns body e1) as (commitMessage & e2 & t & Hm).
  exists commitMessage, e2, t. split; [done|].
  unfold preview_handler. rewrite Hc.
  rewrite (bind_returned _ _ _ _ _ _ (property_of_run body _ e Hnull)).
  rewrite bool_decide_eq_false_2
    by (by destruct (normalizeFieldValues _)).
  erewrite (bind_returned (try_catch _ _)); cycle 1.
  { unfold try_catch.
    erewrite (bind_returned (do_readFile _));
      [|unfold do_readFile; by rewrite Hread].
    reflexivity. }
  cbn [app]. rewrite after_after.
  destruct (applyFieldsToTemplate _ _) as [html applied].
  rewrite (bind_returned _ _ _ _ _ _ Hm). by rewrite after_after.
Qed.

Lemma publish_reply_trace html applied commitMessage e :
  exists rest,
    trace (publish_reply html applied commitMessage e)
    = trace (pushPreviewBranch html commitMessage e) ++ rest.
Proof.
  unfold publish_reply, try_catch. cbv zeta. rewrite bind_outcome.
  destruct (outcome (pushPreviewBranch html commitMessage e)) eqn:Ho.
  - cbn [outcome mret async_ret]. rewrite bind_trace, Ho. by eexists.
  - cbn [trace]. rewrite bind_trace, Ho, app_nil_r. by eexists.
Qed.

(** C9 (amended). If [commitMessage] is a string that is not blank
    (not empty once trimmed), the commit message is that string
    trimmed and cut to its first 250 code units; in every other case
    (no [commitMessage], one that is not a string, a blank one) it is
    the default message with the current time.  The handler passes
    this message to the publish, whose content commit carries it as
    its [message]. *)
Theorem commit_message_trimmed_or_default :
  forall (body : JValue) (e : E),
    (forall s,
       get_property (Some body) (js "commitMessage") = Some (JStr s) ->
       trim s <> [] ->
       commit_message_of body e = MkRan (Returned (take 250 (trim s))) e []
       /\ (length (take 250 (trim s)) <= 250)%nat)
    /\ (match get_property (Some body) (js "commitMessage") with
        | Some (JStr s) => trim s = []
        | _ => True
        end ->
        commit_message_of body e
        = MkRan (Returned (js "chore: update card preview "
                           ++ (Date_toISOString e).1))
                (Date_toISOString e).2
                [EvDate (Date_toISOString e).1])
    /\ (forall e0 templateHtml,
          incomplete repoConfig = false ->
          body <> JNull ->
          normalizeFieldValues (get_property (Some body) (js "fields")) <> [] ->
          readFile previewTemplatePath e0 = (Some templateHtml, e) ->
          exists commitMessage e2 t,
            commit_message_of body e = MkRan (Returned commitMessage) e2 t
            /\ preview_handler (Some body) e0
               = after (EvReadFile previewTemplatePath :: t)
                   (publish_reply
                      (applyFieldsToTemplate templateHtml
                         (normalizeFieldValues
                            (get_property (Some body) (js "fields")))).1
                      (applyFieldsToTemplate templateHtml
                         (normalizeFieldValues
                            (get_property (Some body) (js "fields")))).2
                      commitMessage e2))
    /\ (forall html applied commitMessage e0 branchName e3 prefix e4 logged,
          branch_created e0 branchName e3 prefix ->
          removeReadmeFromBranch branchName e3 = MkRan (Returned tt) e4 logged ->
          exists rest,
            trace (publish_reply html applied commitMessage e0)
            = prefix ++ logged
              ++ EvFetch (api update_path)
                   (with_github_headers
                      {| method := Some (js "PUT");
                         headers := json_headers;
                         body := Some (JSON_stringify (JObj [
                           (js "message", JStr commitMessage);
                           (js "content", JStr (base64_of_utf8 html));
                           (js "branch", JStr branchName);
                           (js "committer", identity);
                           (js "author", identity)])) |})
                 :: rest).
Proof.
  intros body e. split; [|split; [|split]].
  - intros s Hs Ht. split; [|rewrite length_take; lia].
    unfold commit_message_of. rewrite Hs. by destruct (trim s).
  - intros H. unfold commit_message_of.
    destruct (get_property _ _) as [[| | |s| |]|];
      try apply default_commit_message_run.
    rewrite H. apply default_commit_message_run.
  - intros e0 templateHtml. apply handler_publishes.
  - intros html applied commitMessage e0 branchName e3 prefix e4 logged Hb Hr.
    assert (Hp : pat repoConfig <> []) by (destruct Hb; by apply incomplete_pat).
    destruct (publish_reply_trace html applied commitMessage e0) as [rest ->].
    rewrite (push_after_branch _ _ _ _ _ _ Hb).
    rewrite (readme_then_commit _ _ _ _ _ _ Hr), after_after.
    destruct (commit_content_starts branchName html commitMessage e4 Hp)
      as [rest' Hrest].
    unfold after. cbn [trace]. rewrite Hrest.
    exists (rest' ++ rest). by rewrite <- !app_assoc.
Qed.

End Publishing.

(** * Further properties of the code *)

(** ** The sanitizer *)

Lemma trimStart_length s : (length (trimStart s) <= length s)%nat.
Proof.
  induction s as [|c r IH]; simpl; [done|]. destruct (is_ws c); simpl; lia.
Qed.

Lemma replace_ws_runs_length b s :
  (length (replace_ws_runs b s) <= length s)%nat.
Proof.
  revert b. induction s as [|c r IH]; intros b; simpl; [done|].
  destruct (is_ws c); [destruct b|]; simpl;
    pose proof (IH true); pose proof (IH false); lia.
Qed.

(** X1. The sanitizer never lengthens a string: what it returns for a
    string has at most as many code units as the string. *)
Theorem sanitizeFieldValue_never_longer :
  forall s : jsstring,
    (length (sanitizeFieldValue (JStr s)) <= length s)%nat.
Proof.
  intros s. cbn [sanitizeFieldValue]. unfold trim, trimEnd.
  pose proof (trimStart_length (rev (trimStart (rev (replace_ws_runs false s))))).
  pose proof (trimStart_length (rev (replace_ws_runs false s))).
  pose proof (replace_ws_runs_length false s).
  rewrite !length_rev in *. lia.
Qed.

Lemma words_nil_iff s : words s = [] <-> Forall (fun c => is_ws c = true) s.
Proof.
  induction s as [|c r IH]; [by split; [constructor|]|].
  destruct (is_ws c) eqn:Hc.
  - simpl. rewrite Hc, IH. split; [by constructor|].
    by intros [_ ?]%Forall_cons.
  - split.
    + intros H. by destruct (words_nonempty c r Hc).
    + intros [H _]%Forall_cons. congruence.
Qed.

(** X2. The sanitizer returns the empty string for a string exactly
    when the string is empty or all whitespace. *)
Theorem sanitizeFieldValue_empty_iff_blank :
  forall s : jsstring,
    sanitizeFieldValue (JStr s) = [] <-> Forall (fun c => is_ws c = true) s.
Proof.
  intros s. rewrite sanitize_collapse, <- words_nil_iff. unfold collapse_spec.
  split.
  - apply join_nil_inv, words_are_words.
  - by intros ->.
Qed.

(** ** The normalizer *)

Lemma normalize_loop_fixed (result acc : list (jsstring * jsstring)) :
  NoDup (Object_keys result) ->
  (forall k, k ∈ Object_keys acc -> k ∉ Object_keys result) ->
  Forall (fun kv => has_field kv.1 = true
                    /\ sanitizeFieldValue (JStr kv.2) = kv.2) result ->
  foldl normalize_step acc (prod_map Datatypes.id JStr <$> result)
  = acc ++ result.
Proof.
  revert acc. induction result as [|[k v] r IH]; intros acc Hnd Hdisj Hall.
  - simpl. by rewrite app_nil_r.
  - unfold Object_keys in Hnd. rewrite fmap_cons in Hnd.
    apply NoDup_cons in Hnd as [Hk Hr].
    apply Forall_cons in Hall as [[Hf Hs] Hall].
    rewrite fmap_cons. cbn [foldl]. unfold normalize_step at 2.
    cbn [prod_map fst snd Datatypes.id] in *. rewrite Hf, Hs.
    assert (Hfresh : k ∉ Object_keys acc).
    { intros Hin. apply (Hdisj _ Hin). unfold Object_keys. rewrite fmap_cons. by left. }
    rewrite obj_set_fresh by done. rewrite IH; [by rewrite <- app_assoc|done| |done].
    intros k'. unfold Object_keys. rewrite fmap_app, elem_of_app.
    intros [Hin|Hin%list_elem_of_singleton].
    + intros Hin'. apply (Hdisj _ Hin). unfold Object_keys. rewrite fmap_cons.
      by right.
    + simpl in Hin. by subst.
Qed.

(** X3. Normalizing is idempotent: the normalized map, given back as the
    raw [fields] object, normalizes to itself. *)
Theorem normalizeFieldValues_idempotent :
  forall values : option JValue,
    normalizeFieldValues
      (Some (JObj (prod_map Datatypes.id JStr <$> normalizeFieldValues values)))
    = normalizeFieldValues values.
Proof.
  intros values. rewrite (normalize_unfold (Some _)). cbn [raw_entries Object_entries].
  rewrite normalize_loop_fixed; [done| | |].
  - rewrite normalize_unfold. apply normalize_loop_NoDup. constructor.
  - by intros k ?%elem_of_nil.
  - apply Forall_forall. intros [k v] Hin. rewrite normalize_unfold in Hin.
    apply normalize_loop_elem in Hin as [Hin|[Hk (raw & _ & ->)]].
    + by apply elem_of_nil in Hin.
    + split; [done|]. apply sanitize_idempotent.
Qed.

(** X4. The normalized map never has more entries than the registry has
    fields. *)
Theorem normalizeFieldValues_at_most_registry :
  forall values : option JValue,
    (length (normalizeFieldValues values) <= length TEMPLATE_FIELD_CONFIGS)%nat.
Proof.
  intros values.
  assert (Hnd : NoDup (Object_keys (normalizeFieldValues values))).
  { rewrite normalize_unfold. apply normalize_loop_NoDup. constructor. }
  assert (Hsub : Object_keys (normalizeFieldValues values)
                 ⊆ map id TEMPLATE_FIELD_CONFIGS).
  { intros k Hk. apply has_field_ids. rewrite normalize_unfold in Hk.
    apply normalize_loop_keys in Hk as [Hk|[Hk _]]; [|done].
    by apply elem_of_nil in Hk. }
  pose proof (submseteq_length _ _ (NoDup_submseteq _ _ Hnd Hsub)) as Hlen.
  unfold Object_keys in Hlen. by rewrite length_fmap, length_map in Hlen.
Qed.

(** ** The template engine *)

Section TemplateEngineMore.

Context {P : Platform} {D : Dom}.

Lemma write_loop_known st (values : list (jsstring * jsstring)) :
  foldl write_entry st values
  = foldl write_entry st (filter (fun kv => has_field kv.1 = true) values).
Proof.
  revert st. induction values as [|[k v] r IH]; intros st; [done|].
  rewrite filter_cons. cbn [fst foldl]. case_decide as Hk.
  - cbn [foldl]. apply IH.
  - rewrite IH. f_equal. unfold write_entry. cbn [fst].
    destruct (TEMPLATE_FIELD_MAP !! k) eqn:E; [|done].
    destruct Hk. apply (proj2 (has_field_lookup k)). rewrite E. by eexists.
Qed.

(** X5. Values under keys the registry does not know have no effect at
    all: the document and the applied map are what the known values
    alone give. *)
Theorem applyFields_ignores_unknown_keys :
  forall (templateHtml : jsstring) (values : list (jsstring * jsstring)),
    applyFieldsToTemplate templateHtml values
    = applyFieldsToTemplate templateHtml
        (filter (fun kv => has_field (fst kv) = true) values).
Proof.
  intros templateHtml values. unfold applyFieldsToTemplate, write_fields.
  by rewrite write_loop_known.
Qed.

Lemma filter_known_all (values : list (jsstring * jsstring)) :
  (forall k, k ∈ Object_keys values -> has_field k = true) ->
  filter (fun kv => has_field kv.1 = true) values = values.
Proof.
  intros Hall. induction values as [|[k v] r IH]; [done|].
  rewrite filter_cons. cbn [fst]. rewrite decide_True.
  - f_equal. apply IH. intros k' Hk'. apply Hall. unfold Object_keys in *.
    rewrite fmap_cons. by right.
  - apply Hall. unfold Object_keys. rewrite fmap_cons. by left.
Qed.

Lemma applied_normalized (templateHtml : jsstring) (fields : option JValue) :
  (applyFieldsToTemplate templateHtml (normalizeFieldValues fields)).2
  = normalizeFieldValues fields.
Proof.
  rewrite applyFields_applied.
  - apply filter_known_all. intros k Hk. rewrite normalize_unfold in Hk.
    apply normalize_loop_keys in Hk as [Hk|[Hk _]]; [|done].
    by apply elem_of_nil in Hk.
  - rewrite normalize_unfold. apply normalize_loop_NoDup. constructor.
Qed.

(** X6. What the template engine reports as applied for a normalized
    map is that map: every normalized field is reported, with its
    sanitized value, in order. *)
Theorem applied_of_normalized :
  forall (templateHtml : jsstring) (fields : option JValue),
    snd (applyFieldsToTemplate templateHtml (normalizeFieldValues fields))
    = normalizeFieldValues fields.
Proof. intros templateHtml fields. apply applied_normalized. Qed.

Lemma write_loop_absent doc applied (values : list (jsstring * jsstring)) :
  (forall k v config,
     (k, v) ∈ values -> TEMPLATE_FIELD_MAP !! k = Some config ->
     getTemplateNode doc config = None) ->
  (foldl write_entry (doc, applied) values).1 = doc.
Proof.
  revert applied. induction values as [|[k v] r IH]; intros applied Habs; [done|].
  cbn [foldl]. unfold write_entry at 2. cbn [fst snd].
  destruct (TEMPLATE_FIELD_MAP !! k) as [config|] eqn:E.
  - unfold writeTemplateField. rewrite (Habs k v config); [|by left|done].
    apply IH. intros k' v' c' Hin. apply (Habs k' v'). by right.
  - apply IH. intros k' v' c' Hin. apply (Habs k' v'). by right.
Qed.

(** X7. A known field whose node the template lacks is skipped
    silently and still reported: when no value has a node in the
    parsed template, the document is left as parsed, and the applied
    map lists every known field all the same. *)
Theorem applyFields_absent_nodes :
  forall (templateHtml : jsstring) (values : list (jsstring * jsstring)),
    NoDup (Object_keys values) ->
    (forall k v config,
       (k, v) ∈ values -> TEMPLATE_FIELD_MAP !! k = Some config ->
       getTemplateNode (parseHTML templateHtml) config = None) ->
    write_fields (parseHTML templateHtml) values
    = (parseHTML templateHtml,
       filter (fun kv => has_field (fst kv) = true) values)
    /\ applyFieldsToTemplate templateHtml values
       = (DOCTYPE ++ outerHTML (derive_title (parseHTML templateHtml)),
          filter (fun kv => has_field (fst kv) = true) values).
Proof.
  intros templateHtml values Hnd Habs.
  assert (Hw : write_fields (parseHTML templateHtml) values
               = (parseHTML templateHtml,
                  filter (fun kv => has_field kv.1 = true) values)).
  { unfold write_fields.
    pose proof (write_loop_absent (parseHTML templateHtml) [] values Habs) as H1.
    pose proof (write_fields_applied (parseHTML templateHtml) [] values) as H2.
    destruct (foldl write_entry _ values) as [doc applied]. cbn [fst snd] in *.
    rewrite H1, H2; [done|constructor|done|]. by intros k ?%elem_of_nil. }
  split; [done|]. unfold applyFieldsToTemplate. by rewrite Hw.
Qed.

End TemplateEngineMore.

(** ** The order of the requests *)

Section SequencesFacts.

Context {E : Type}.

Lemma methods_of_app t t' : methods_of (t ++ t') = methods_of t ++ methods_of t'.
Proof. apply omap_app. Qed.

Lemma follows_mono {A} L L' (m : Async E A) :
  L ⊆ L' -> follows L m -> follows L' m.
Proof.
  intros Hsub Hm e. destruct (Hm e) as [(l & Hl & Hpre) Hret]. split.
  - exists l. split; [by apply Hsub|done].
  - intros a Ha. by apply Hsub, (Hret a).
Qed.

Lemma follows_ret {A} (a : A) : follows [[]] (mret a : Async E A).
Proof.
  intros e. split.
  - exists []. split; [by left|done].
  - intros _ _. by left.
Qed.

Lemma follows_throw {A} l L x : l ∈ L -> follows L (@throw E A x).
Proof.
  intros Hl e. split.
  - exists l. split; [done|]. apply prefix_nil.
  - by intros a.
Qed.

Lemma continued_elem L1 L2 l1 l2 :
  l1 ∈ L1 -> l2 ∈ L2 -> l1 ++ l2 ∈ continued L1 L2.
Proof.
  intros H1 H2. unfold continued. apply list_elem_of_bind.
  exists l1. split; [|done]. by apply (list_elem_of_fmap_2 (fun l2 => l1 ++ l2)).
Qed.

Lemma follows_bind {A B} L1 L2 l2 (m : Async E A) (f : A -> Async E B) :
  l2 ∈ L2 ->
  follows L1 m -> (forall a, follows L2 (f a)) ->
  follows (continued L1 L2) (m ≫= f).
Proof.
  intros Hl2 Hm Hf e. rewrite bind_trace, bind_outcome, methods_of_app.
  destruct (Hm e) as [(l1 & Hl1 & Hpre) Hret].
  destruct (outcome (m e)) as [a|x] eqn:Ho.
  - destruct (Hf a (world (m e))) as [(l & Hl & Hpre') Hret'].
    specialize (Hret a eq_refl). split.
    + exists (methods_of (trace (m e)) ++ l). split; [by apply continued_elem|].
      by apply prefix_app.
    + intros b Hb. apply continued_elem; [done|]. by apply (Hret' b).
  - split; [|by intros b].
    exists (l1 ++ l2). split; [by apply continued_elem|].
    cbn [methods_of omap list_omap]. rewrite app_nil_r.
    by apply prefix_app_r.
Qed.

Lemma bind_thrown_run {A B} (m : Async E A) (f : A -> Async E B) e x e' t :
  m e = MkRan (Thrown x) e' t -> (m ≫= f) e = MkRan (Thrown x) e' t.
Proof. intros H. unfold mbind, async_bind. by rewrite H. Qed.

End SequencesFacts.

Section PublishingMore.

Context {P : Platform} {D : Dom} {E : Type} {W : World E}.
Context {repoConfig : RepoConfig}.

Local Abbreviation GET := (js "GET").
Local Abbreviation POST := (js "POST").
Local Abbreviation DELETE := (js "DELETE").
Local Abbreviation PUT := (js "PUT").

Ltac chain L1 L2 l2 :=
  match goal with
  | |- follows _ ?m => change (follows (continued L1 L2) m)
  end;
  apply (follows_bind L1 L2 l2).

Lemma follows_console {A} L level args (k : Async E A) :
  follows L k -> follows L (log (EvConsole level args);; k).
Proof.
  intros Hk e. rewrite bind_trace, bind_outcome. cbn [log outcome world trace].
  rewrite methods_of_app. apply Hk.
Qed.

Lemma follows_log L level args :
  [] ∈ L -> follows (E:=E) L (log (EvConsole level args)).
Proof.
  intros HL e. split.
  - exists []. by split.
  - by intros a _.
Qed.

Lemma follows_githubPatRequest path init :
  follows [[default [] (method init)]] (githubPatRequest path init).
Proof.
  intros e. destruct (decide (pat repoConfig = [])) as [Hp|Hp].
  - rewrite githubPatRequest_unconfigured by done. split; [|done].
    eexists. split; [by left|apply prefix_nil].
  - rewrite githubPatRequest_run by done.
    destruct (fetch _ _ e) as [[response|] e']; [destruct (ok response)|];
      (split; [eexists; split; [by left|done]|intros a _; by left]).
Qed.

Lemma follows_response_json L r : [] ∈ L -> follows (E:=E) L (response_json r).
Proof.
  intros HL. unfold response_json. destruct (body_json r).
  - eapply follows_mono; [|apply follows_ret]. by intros l ->%list_elem_of_singleton.
  - by apply (follows_throw []).
Qed.

Lemma follows_randomUUID : follows [[]] do_randomUUID.
Proof.
  intros e. unfold do_randomUUID. destruct (randomUUID e). split.
  - exists []. by split; [left|].
  - intros a _. by left.
Qed.

Lemma follows_removeReadme branchName :
  follows [[GET]; [GET; DELETE]] (removeReadmeFromBranch branchName).
Proof.
  unfold removeReadmeFromBranch.
  chain [[GET]] [[]; [DELETE]] (@nil jsstring);
    [by left|apply (follows_githubPatRequest _ get_init)|]. intros response.
  destruct (status response =? 404).
  { eapply follows_mono; [|apply follows_ret]. intros l ->%list_elem_of_singleton. by left. }
  destruct (negb (ok response)); [apply follows_log; by left|].
  chain [@nil jsstring] [[]; [DELETE]] (@nil jsstring);
    [by left|apply follows_response_json; by left|]. intros data.
  destruct (truthy _) as [readmeSha|]; [|apply follows_log; by left].
  apply (follows_mono [[DELETE]]).
  { intros l ->%list_elem_of_singleton. right. by left. }
  chain [[DELETE]] [@nil jsstring] (@nil jsstring);
    [by left|apply (follows_githubPatRequest _ (delete_init branchName readmeSha))|].
  intros deleted.
  destruct (_ && _); [apply follows_log; by left|apply follows_ret].
Qed.

Lemma follows_commit_content branchName content commitMessage :
  follows [[PUT]] (commit_content branchName content commitMessage).
Proof.
  unfold commit_content.
  chain [[PUT]] [@nil jsstring] (@nil jsstring);
    [by left
    |apply (follows_githubPatRequest _ (update_init content commitMessage branchName))|].
  intros updated.
  destruct (negb (ok updated)); [|apply follows_ret].
  apply follows_console, (follows_throw []). by left.
Qed.

(** X8. One publish sends its requests in one fixed order and none
    twice: the methods sent in any run are the beginning of
    GET, POST, GET, PUT or of GET, POST, GET, DELETE, PUT (base ref,
    new ref, README lookup, README removal, content commit), so the
    README step always comes before the content commit; a run that
    returns has sent the whole of one of the two. *)
Theorem pushPreviewBranch_request_order :
  forall (content commitMessage : jsstring) (e : E),
    (exists l,
       l ∈ [[GET; POST; GET; PUT]; [GET; POST; GET; DELETE; PUT]]
       /\ methods_of (trace (pushPreviewBranch content commitMessage e))
          `prefix_of` l)
    /\ (forall r,
          outcome (pushPreviewBranch content commitMessage e) = Returned r ->
          methods_of (trace (pushPreviewBranch content commitMessage e))
          ∈ [[GET; POST; GET; PUT]; [GET; POST; GET; DELETE; PUT]]).
Proof.
  intros content commitMessage.
  change (follows [[GET; POST; GET; PUT]; [GET; POST; GET; DELETE; PUT]]
            (pushPreviewBranch content commitMessage)).
  unfold pushPreviewBranch.
  destruct (incomplete repoConfig); [apply (follows_throw [GET; POST; GET; PUT]); by left|].
  chain [[GET]] [[POST; GET; PUT]; [POST; GET; DELETE; PUT]] [POST; GET; PUT];
    [by left|apply (follows_githubPatRequest _ get_init)|]. intros base.
  destruct (negb (ok base)); [apply (follows_throw [POST; GET; PUT]); by left|].
  chain [@nil jsstring] [[POST; GET; PUT]; [POST; GET; DELETE; PUT]] [POST; GET; PUT];
    [by left|apply follows_response_json; by left|]. intros data.
  destruct (truthy _) as [baseSha|];
    [|apply (follows_throw [POST; GET; PUT]); by left].
  chain [@nil jsstring] [[POST; GET; PUT]; [POST; GET; DELETE; PUT]] [POST; GET; PUT];
    [by left|apply follows_randomUUID|]. intros uuid.
  chain [[POST]] [[GET; PUT]; [GET; DELETE; PUT]] [GET; PUT];
    [by left
    |apply (follows_githubPatRequest _ (create_ref_init (js "card-" ++ uuid) baseSha))|].
  intros created.
  destruct (negb (ok created)).
  { apply follows_console, (follows_throw [GET; PUT]). by left. }
  chain [[GET]; [GET; DELETE]] [[PUT]] [PUT];
    [by left|apply follows_removeReadme|]. intros _.
  apply follows_commit_content.
Qed.

(** *** The README step *)

(** X9. The README step sends a DELETE only for a README it has seen:
    any DELETE request in its trace is the removal request for the
    [sha] of a lookup that was answered with a success and a payload
    whose [sha] is truthy. *)
Theorem removeReadme_deletes_only_what_it_found :
  forall (branchName : jsstring) (e : E) (url : jsstring) (init : RequestInit),
    EvFetch url init ∈ trace (removeReadmeFromBranch branchName e) ->
    method init = Some (js "DELETE") ->
    exists response e1 data readmeSha,
      fetch (api (readme_lookup_path branchName)) (with_github_headers get_init) e
        = (Some response, e1)
      /\ ok response = true
      /\ body_json response = Some data
      /\ truthy (get_property (Some data) (js "sha")) = Some readmeSha
      /\ EvFetch url init
         = EvFetch (api readme_path)
             (with_github_headers (delete_init branchName readmeSha)).
Proof.
  intros branchName e url init Hin Hm.
  assert (Hget : forall u, EvFetch url init = lookup_event u -> False).
  { intros u [= _ ->]. cbn in Hm. by vm_compute in Hm. }
  assert (Hcons : forall l a, EvFetch url init ∈ EvConsole l a :: [] -> False).
  { intros l a [?|H]%elem_of_cons; [done|by apply elem_of_nil in H]. }
  destruct (decide (pat repoConfig = [])) as [Hp|Hp].
  { unfold removeReadmeFromBranch in Hin.
    rewrite bind_trace, githubPatRequest_unconfigured in Hin by done.
    by apply elem_of_nil in Hin. }
  destruct (fetch (api (readme_lookup_path branchName))
              (with_github_headers get_init) e) as [[response|] e1] eqn:Hfetch.
  2: { unfold removeReadmeFromBranch in Hin.
       rewrite bind_trace, githubPatRequest_run, Hfetch in Hin by done.
       cbn in Hin. apply elem_of_cons in Hin as [Hin|Hin];
         [by destruct (Hget branchName)|by apply elem_of_nil in Hin]. }
  destruct (ok response) eqn:Hok.
  2: { rewrite (removeReadme_lookup_failed _ _ _ _ Hp Hfetch Hok) in Hin.
       cbn [trace] in Hin. unfold request_failed, readme_unloadable in Hin.
       apply elem_of_cons in Hin as [Hin|Hin]; [by destruct (Hget branchName)|].
       apply elem_of_cons in Hin as [Hin|Hin]; [done|].
       destruct (status response =? 404); [by apply elem_of_nil in Hin|].
       by destruct (Hcons _ _ Hin). }
  destruct (body_json response) as [data|] eqn:Hjson.
  2: { rewrite (removeReadme_unparsable _ _ _ _ Hp Hfetch Hok Hjson) in Hin.
       cbn [trace] in Hin. apply elem_of_cons in Hin as [Hin|Hin];
         [by destruct (Hget branchName)|by apply elem_of_nil in Hin]. }
  destruct (truthy (get_property (Some data) (js "sha"))) as [readmeSha|] eqn:Hsha.
  2: { rewrite (removeReadme_sha_missing _ _ _ _ _ Hp Hfetch Hok Hjson Hsha) in Hin.
       cbn [trace] in Hin. apply elem_of_cons in Hin as [Hin|Hin];
         [by destruct (Hget branchName)|]. by destruct (Hcons _ _ Hin). }
  exists response, e1, data, readmeSha. repeat (split; [done|]).
  destruct (fetch (api readme_path)
              (with_github_headers (delete_init branchName readmeSha)) e1)
    as [[deleted|] e2] eqn:Hdel.
  - rewrite (removeReadme_deleted _ _ _ _ _ _ _ _ Hp Hfetch Hok Hjson Hsha Hdel) in Hin.
    cbn [trace] in Hin. unfold request_failed, readme_delete_failed in Hin.
    apply elem_of_cons in Hin as [Hin|Hin]; [by destruct (Hget branchName)|].
    apply elem_of_cons in Hin as [Hin|Hin]; [done|].
    destruct (ok deleted); [by apply elem_of_nil in Hin|].
    apply elem_of_cons in Hin as [Hin|Hin]; [done|].
    destruct (status deleted =? 404); [by apply elem_of_nil in Hin|].
    by destruct (Hcons _ _ Hin).
  - rewrite (removeReadme_delete_rejected _ _ _ _ _ _ _ Hp Hfetch Hok Hjson Hsha Hdel)
      in Hin.
    cbn [trace] in Hin.
    apply elem_of_cons in Hin as [Hin|Hin]; [by destruct (Hget branchName)|].
    apply elem_of_cons in Hin as [Hin|Hin]; [done|]. by apply elem_of_nil in Hin.
Qed.

(** *** Fatal failures of a publish *)




(** *** What a publish returns *)

Lemma bind_returns {A B} (m : Async E A) (f : A -> Async E B) e b :
  outcome ((m ≫= f) e) = Returned b ->
  exists a e', outcome (m e) = Returned a /\ outcome (f a e') = Returned b.
Proof.
  rewrite bind_outcome. destruct (outcome (m e)) as [a|x] eqn:Ho; [|done].
  intros H. by exists a, (world (m e)).
Qed.

Lemma commit_content_returns branchName content commitMessage e r :
  outcome (commit_content branchName content commitMessage e) = Returned r ->
  r = {| branchName := branchName;
         branchUrl := branch_url branchName;
         vercelImportUrl :=
           js "https://vercel.com/new/clone?repository-url="
           ++ encodeURIComponent (branch_url branchName) |}.
Proof.
  unfold commit_content. intros (updated & e' & _ & H)%bind_returns.
  destruct (negb (ok updated)).
  - by apply bind_returns in H as (? & ? & _ & H).
  - by injection H as <-.
Qed.

(** X13. The links of a result are built from its branch name: every
    result [pushPreviewBranch] returns has the branch URL
    [https://github.com/<owner>/<repo>/tree/<branch>] and, as import
    link, the fixed Vercel address followed by that URL encoded as a
    URI component. *)
Theorem pushPreviewBranch_result_urls :
  forall (content commitMessage : jsstring) (e : E) (r : PreviewBranchResult),
    outcome (pushPreviewBranch content commitMessage e) = Returned r ->
    branchUrl r
    = js "https://github.com/" ++ owner repoConfig ++ js "/" ++ repo repoConfig
      ++ js "/tree/" ++ branchName r
    /\ vercelImportUrl r
       = js "https://vercel.com/new/clone?repository-url="
         ++ encodeURIComponent (branchUrl r).
Proof.
  intros content commitMessage e r. unfold pushPreviewBranch.
  destruct (incomplete repoConfig); [done|].
  intros (base & e1 & _ & H)%bind_returns.
  destruct (negb (ok base)); [done|].
  apply bind_returns in H as (data & e2 & _ & H).
  destruct (truthy _) as [baseSha|]; [|done].
  apply bind_returns in H as (uuid & e3 & _ & H).
  apply bind_returns in H as (created & e4 & _ & H).
  destruct (negb (ok created)).
  { by apply bind_returns in H as (? & ? & _ & H). }
  apply bind_returns in H as (? & e5 & _ & H).
  apply commit_content_returns in H. by rewrite H.
Qed.

(** *** The handler's answers *)

Lemma publish_reply_returns html applied commitMessage e :
  (exists x, outcome (pushPreviewBranch html commitMessage e) = Thrown x
             /\ outcome (publish_reply html applied commitMessage e)
                = Returned publish_failed)
  \/ (exists pushed,
        outcome (pushPreviewBranch html commitMessage e) = Returned pushed
        /\ outcome (publish_reply html applied commitMessage e)
           = Returned (published pushed applied)).
Proof.
  destruct (outcome (pushPreviewBranch html commitMessage e)) as [pushed|x] eqn:Ho.
  - right. exists pushed. split; [done|].
    unfold publish_reply, try_catch. cbv zeta. rewrite bind_outcome, Ho.
    cbn [outcome mret async_ret]. by rewrite bind_outcome, Ho.
  - left. exists x. split; [done|]. by apply (publish_reply_failed _ _ _ _ x).
Qed.

Lemma handler_template_unreadable body e e1 :
  incomplete repoConfig = false ->
  body <> JNull ->
  normalizeFieldValues (get_property (Some body) (js "fields")) <> [] ->
  readFile previewTemplatePath e = (None, e1) ->
  preview_handler (Some body) e
  = MkRan (Returned (c_text (js "Unable to load template file.") 500)) e1
      [EvReadFile previewTemplatePath;
       EvConsole LevelError [
         LStr (js "Failed to read preview template from disk.");
         LExn ReadFailed]].
Proof.
  intros Hc Hnull Hfields Hread. unfold preview_handler. rewrite Hc.
  rewrite (bind_returned _ _ _ _ _ _ (property_of_run body _ e Hnull)).
  rewrite bool_decide_eq_false_2 by (by destruct (normalizeFieldValues _)).
  assert (Hd : do_readFile previewTemplatePath e
            = MkRan (Thrown ReadFailed) e1 [EvReadFile previewTemplatePath]).
  { unfold do_readFile. by rewrite Hread. }
  erewrite (bind_returned (try_catch _ _)); cycle 1.
  { unfold try_catch. cbv zeta. rewrite (bind_thrown_run _ _ _ _ _ _ Hd).
    cbn [outcome world trace]. reflexivity. }
  reflexivity.
Qed.

(** X14. A template that cannot be read is answered with status 500
    before GitHub is contacted: the only events are the read and the
    console line. *)
Theorem handler_template_load_failure :
  forall (body : JValue) (e e1 : E),
    incomplete repoConfig = false ->
    body <> JNull ->
    normalizeFieldValues (get_property (Some body) (js "fields")) <> [] ->
    readFile previewTemplatePath e = (None, e1) ->
    preview_handler (Some body) e
    = MkRan (Returned (c_text (js "Unable to load template file.") 500)) e1
        [EvReadFile previewTemplatePath;
         EvConsole LevelError [
           LStr (js "Failed to read preview template from disk.");
           LExn ReadFailed]].
Proof. intros body e e1. apply handler_template_unreadable. Qed.

(** X16. The answer to a successful publish: when the request is valid,
    the template is read and [pushPreviewBranch] returns a result, the
    handler answers with the JSON object of the branch name, the two
    links of the result, and, as [appliedFields], the normalized fields
    of the request. *)
Theorem handler_success_reply :
  forall (body : JValue) (e : E) (templateHtml : jsstring) (e1 : E),
    incomplete repoConfig = false ->
    body <> JNull ->
    normalizeFieldValues (get_property (Some body) (js "fields")) <> [] ->
    readFile previewTemplatePath e = (Some templateHtml, e1) ->
    exists commitMessage e2 t,
      commit_message_of body e1 = MkRan (Returned commitMessage) e2 t
      /\ forall pushed,
           outcome
             (pushPreviewBranch
                (fst (applyFieldsToTemplate templateHtml
                        (normalizeFieldValues
                           (get_property (Some body) (js "fields")))))
                commitMessage e2)
           = Returned pushed ->
           outcome (preview_handler (Some body) e)
           = Returned (c_json (JObj [
               (js "branch", JStr (branchName pushed));
               (js "branchUrl", JStr (branchUrl pushed));
               (js "vercelImportUrl", JStr (vercelImportUrl pushed));
               (js "appliedFields",
                JObj (prod_map Datatypes.id JStr
                        <$> normalizeFieldValues
                              (get_property (Some body) (js "fields"))))])).
Proof.
  intros body e templateHtml e1 Hc Hnull Hfields Hread.
  destruct (handler_publishes body e templateHtml e1 Hc Hnull Hfields Hread)
    as (commitMessage & e2 & t & Hm & ->).
  exists commitMessage, e2, t. split; [done|]. intros pushed Hp.
  unfold after. cbn [outcome]. rewrite applied_normalized.
  match goal with
  | |- context [publish_reply ?h ?a ?m ?w] =>
      destruct (publish_reply_returns h a m w) as [(x & Hx & _)|(pushed' & Hp' & ->)]
  end.
  - congruence.
  - rewrite Hp in Hp'. by injection Hp' as <-.
Qed.

(** *** Every request carries the token *)

Lemma guarded_ret {A} (a : A) : guarded (mret a : Async E A).
Proof. intros e. constructor. Qed.

Lemma guarded_throw {A} x : guarded (@throw E A x).
Proof. intros e. constructor. Qed.

Lemma guarded_console level args : guarded (E:=E) (log (EvConsole level args)).
Proof. intros e. by repeat constructor. Qed.

Lemma guarded_bind {A B} (m : Async E A) (f : A -> Async E B) :
  guarded m -> (forall a, guarded (f a)) -> guarded (m ≫= f).
Proof.
  intros Hm Hf e. rewrite bind_trace. apply Forall_app. split; [apply Hm|].
  destruct (outcome (m e)); [apply Hf|constructor].
Qed.

Lemma guarded_try_catch {A} (m : Async E A) handler :
  guarded m -> (forall x, guarded (handler x)) -> guarded (try_catch m handler).
Proof.
  intros Hm Hh e. unfold try_catch. cbv zeta.
  destruct (outcome (m e)); [apply Hm|]. cbn [trace].
  apply Forall_app. split; [apply Hm|apply Hh].
Qed.

Lemma guarded_response_json r : guarded (E:=E) (response_json r).
Proof. unfold response_json. destruct (body_json r); intros e; constructor. Qed.

Lemma guarded_readFile path : guarded (do_readFile path).
Proof.
  intros e. unfold do_readFile. destruct (readFile path e) as [[text|] e'];
    by repeat constructor.
Qed.

Lemma guarded_randomUUID : guarded do_randomUUID.
Proof.
  intros e. unfold do_randomUUID. destruct (randomUUID e). by repeat constructor.
Qed.

Lemma guarded_Date : guarded do_Date_toISOString.
Proof.
  intros e. unfold do_Date_toISOString. destruct (Date_toISOString e).
  by repeat constructor.
Qed.

Lemma guarded_githubPatRequest path init :
  headers init = None \/ headers init = json_headers ->
  guarded (githubPatRequest path init).
Proof.
  intros Hh e.
  assert (Ha : authenticated (EvFetch (api path) (with_github_headers init))).
  { split; [by exists path|]. eexists. split; [reflexivity|].
    destruct Hh as [->| ->]; by vm_compute. }
  destruct (decide (pat repoConfig = [])) as [Hp|Hp].
  - rewrite githubPatRequest_unconfigured by done. constructor.
  - rewrite githubPatRequest_run by done.
    destruct (fetch _ _ e) as [[response|] e']; [destruct (ok response)|];
      cbn [trace]; repeat (apply Forall_cons; split; [done|]); constructor.
Qed.

Lemma guarded_removeReadme branchName : guarded (removeReadmeFromBranch branchName).
Proof.
  unfold removeReadmeFromBranch.
  apply guarded_bind; [apply guarded_githubPatRequest; by left|]. intros response.
  destruct (status response =? 404); [apply guarded_ret|].
  destruct (negb (ok response)); [apply guarded_console|].
  apply guarded_bind; [apply guarded_response_json|]. intros data.
  destruct (truthy _); [|apply guarded_console].
  apply guarded_bind; [apply guarded_githubPatRequest; by right|]. intros deleted.
  destruct (_ && _); [apply guarded_console|apply guarded_ret].
Qed.

Lemma guarded_commit_content branchName content commitMessage :
  guarded (commit_content branchName content commitMessage).
Proof.
  unfold commit_content.
  apply guarded_bind; [apply guarded_githubPatRequest; by right|]. intros updated.
  destruct (negb (ok updated)); [|apply guarded_ret].
  apply guarded_bind; [apply guarded_console|]. intros _. apply guarded_throw.
Qed.

Lemma guarded_push content commitMessage :
  guarded (pushPreviewBranch content commitMessage).
Proof.
  unfold pushPreviewBranch. destruct (incomplete repoConfig); [apply guarded_throw|].
  apply guarded_bind; [apply guarded_githubPatRequest; by left|]. intros base.
  destruct (negb (ok base)); [apply guarded_throw|].
  apply guarded_bind; [apply guarded_response_json|]. intros data.
  destruct (truthy _) as [baseSha|]; [|apply guarded_throw].
  apply guarded_bind; [apply guarded_randomUUID|]. intros uuid.
  apply guarded_bind; [apply guarded_githubPatRequest; by right|]. intros created.
  destruct (negb (ok created)).
  { apply guarded_bind; [apply guarded_console|]. intros _. apply guarded_throw. }
  apply guarded_bind; [apply guarded_removeReadme|]. intros _.
  apply guarded_commit_content.
Qed.

Lemma guarded_commit_message body : guarded (commit_message_of body).
Proof.
  assert (Hd : guarded default_commit_message).
  { apply guarded_bind; [apply guarded_Date|]. intros now. apply guarded_ret. }
  unfold commit_message_of.
  destruct (get_property _ _) as [[| | |s| |]|]; try done.
  destruct (trim s); [done|apply guarded_ret].
Qed.

(** X17. No request leaves without the token: in every run of the
    handler, whatever the request and the world, each [fetch] goes to
    [https://api.github.com] and carries the fixed [Accept] header, the
    [Authorization] header with the configured token and the API
    version header; no header the code adds replaces them. *)
Theorem handler_requests_authenticated :
  forall (request_json : option JValue) (e : E) (url : jsstring)
         (init : RequestInit),
    EvFetch url init ∈ trace (preview_handler request_json e) ->
    (exists path, url = js "https://api.github.com" ++ path)
    /\ exists hs,
         headers init = Some hs
         /\ obj_get (js "Accept") hs = Some (js "application/vnd.github+json")
         /\ obj_get (js "Authorization") hs = Some (js "token " ++ pat repoConfig)
         /\ obj_get (js "X-GitHub-Api-Version") hs = Some (js "2022-11-28").
Proof.
  intros request_json e url init Hin.
  assert (Hg : guarded (preview_handler request_json)).
  { unfold preview_handler. destruct (incomplete repoConfig).
    { apply guarded_bind; [apply guarded_console|]. intros _. apply guarded_ret. }
    destruct request_json as [body|]; [|apply guarded_ret].
    apply guarded_bind; [destruct body; (apply guarded_throw || apply guarded_ret)|].
    intros fields. case_bool_decide; [apply guarded_ret|].
    apply guarded_bind.
    - apply guarded_try_catch.
      + apply guarded_bind; [apply guarded_readFile|]. intros t. apply guarded_ret.
      + intros x. apply guarded_bind; [apply guarded_console|]. intros _.
        apply guarded_ret.
    - intros [reply|templateHtml]; [apply guarded_ret|].
      destruct (applyFieldsToTemplate _ _) as [html applied].
      apply guarded_bind; [apply guarded_commit_message|]. intros commitMessage.
      apply guarded_try_catch.
      + apply guarded_bind; [apply guarded_push|]. intros pushed. apply guarded_ret.
      + intros x. apply guarded_bind; [apply guarded_console|]. intros _.
        apply guarded_ret. }
  specialize (Hg e). rewrite Forall_forall in Hg. exact (Hg _ Hin).
Qed.

(** *** Paths *)

Lemma split_on_app sep (w r : jsstring) :
  sep ∉ w -> split_on sep (w ++ sep :: r) = w :: split_on sep r.
Proof.
  induction w as [|c w IH]; intros Hw; cbn [app split_on].
  - by rewrite N.eqb_refl.
  - apply not_elem_of_cons in Hw as [Hc Hw].
    rewrite (proj2 (N.eqb_neq c sep)) by done. by rewrite IH.
Qed.

Lemma split_on_word sep (w : jsstring) : sep ∉ w -> split_on sep w = [w].
Proof.
  induction w as [|c w IH]; intros Hw; cbn [split_on]; [done|].
  apply not_elem_of_cons in Hw as [Hc Hw].
  rewrite (proj2 (N.eqb_neq c sep)) by done. by rewrite IH.
Qed.

Lemma split_on_nonempty sep s : split_on sep s <> [].
Proof.
  destruct s as [|c r]; cbn [split_on]; [done|].
  destruct (c =? sep)%N; [done|]. by destruct (split_on sep r).
Qed.

Lemma split_on_join sep (parts : list jsstring) :
  parts <> [] -> Forall (fun w => sep ∉ w) parts ->
  split_on sep (join [sep] parts) = parts.
Proof.
  induction parts as [|w [|w' ws] IH]; intros Hne Hall; [done|..].
  - apply Forall_cons in Hall as [Hw _]. by apply split_on_word.
  - apply Forall_cons in Hall as [Hw Hws].
    change (join [sep] (w :: w' :: ws)) with (w ++ sep :: join [sep] (w' :: ws)).
    rewrite split_on_app by done. by rewrite IH.
Qed.

Lemma join_split_on sep s : join [sep] (split_on sep s) = s.
Proof.
  induction s as [|c r IH]; cbn [split_on]; [done|].
  destruct (c =? sep)%N eqn:Hc.
  - apply N.eqb_eq in Hc as ->.
    pose proof (split_on_nonempty sep r) as Hne.
    destruct (split_on sep r) as [|w ws]; [done|].
    change (join [sep] ([] :: w :: ws)) with (sep :: join [sep] (w :: ws)).
    by rewrite IH.
  - pose proof (split_on_nonempty sep r) as Hne.
    destruct (split_on sep r) as [|w [|w' ws]]; [done|..].
    + cbn [join] in *. by rewrite IH.
    + change (join [sep] ((c :: w) :: w' :: ws))
        with (c :: join [sep] (w :: w' :: ws)).
      by rewrite IH.
Qed.

(** X18. [encodeGitHubPath] keeps the segments of a path: as
    [encodeURIComponent] never produces a slash, splitting the encoded
    path at its slashes gives the encoded segments of the path, as many
    as before and in the same order. *)
Theorem encodeGitHubPath_keeps_segments :
  (forall s, 47%N ∉ encodeURIComponent s) ->
  forall path,
    split_on 47 (encodeGitHubPath path)
    = map encodeURIComponent (split_on 47 path).
Proof.
  intros Hslash path. unfold encodeGitHubPath.
  change (js "/") with [47%N]. apply split_on_join.
  - pose proof (split_on_nonempty 47 path). by destruct (split_on 47 path).
  - apply Forall_forall. intros w Hw.
    apply list_elem_of_fmap in Hw as (s & -> & _). apply Hslash.
Qed.

(** X19. A path whose segments [encodeURIComponent] leaves as they are
    is left as it is by [encodeGitHubPath]: splitting at the slashes and
    joining with slashes loses nothing. *)
Theorem encodeGitHubPath_plain_path :
  forall path,
    Forall (fun segment => encodeURIComponent segment = segment)
           (split_on 47 path) ->
    encodeGitHubPath path = path.
Proof.
  intros path Hplain. unfold encodeGitHubPath. change (js "/") with [47%N].
  replace (map encodeURIComponent (split_on 47 path)) with (split_on 47 path).
  - apply join_split_on.
  - induction Hplain as [|w ws Hw _ IH]; [done|]. cbn [map]. by rewrite Hw, <- IH.
Qed.

End PublishingMore.

(** * The theorems on inputs

    The demo platform meets what the theorems ask of a platform, and
    each theorem with a premise is applied to a request that meets it. *)
Module DemoFacts.
Import Demo.

(** ** The demo platform and document at work *)

Example base64_Man : base64_of_utf8 (js "Man") = js "TWFu".
Proof. reflexivity. Qed.

Example base64_Ma : base64_of_utf8 (js "Ma") = js "TWE=".
Proof. reflexivity. Qed.

Example encode_uri_readme : encodeURIComponent (js "READ ME.md") = js "READ%20ME.md".
Proof. reflexivity. Qed.

Example stringify_ref :
  JSON_stringify (JObj [(js "ref", JStr (js "refs/heads/x")); (js "n", JNum 7)])
  = js "{" ++ quote (js "ref") ++ js ":" ++ quote (js "refs/heads/x")
    ++ js "," ++ quote (js "n") ++ js ":7}".
Proof. reflexivity. Qed.

(** ** ASCII case conversion keeps whitespace where it is *)

Lemma letter_not_ws c : 65 <= c <= 122 -> is_ws c = false.
Proof.
  intros Hc. unfold is_ws.
  replace (c <=? 13) with false by (symmetry; apply N.leb_gt; lia).
  replace (c =? 32) with false by (symmetry; apply N.eqb_neq; lia).
  replace (c =? 160) with false by (symmetry; apply N.eqb_neq; lia).
  replace (c =? 5760) with false by (symmetry; apply N.eqb_neq; lia).
  replace (8192 <=? c) with false by (symmetry; apply N.leb_gt; lia).
  replace (c =? 8232) with false by (symmetry; apply N.eqb_neq; lia).
  replace (c =? 8233) with false by (symmetry; apply N.eqb_neq; lia).
  replace (c =? 8239) with false by (symmetry; apply N.eqb_neq; lia).
  replace (c =? 8287) with false by (symmetry; apply N.eqb_neq; lia).
  replace (c =? 12288) with false by (symmetry; apply N.eqb_neq; lia).
  replace (c =? 65279) with false by (symmetry; apply N.eqb_neq; lia).
  by rewrite andb_false_r.
Qed.

Lemma ascii_upper_ws c : is_ws (ascii_upper c) = is_ws c.
Proof.
  unfold ascii_upper. destruct (_ && _) eqn:E; [|done].
  apply andb_true_iff in E as [H1%N.leb_le H2%N.leb_le].
  rewrite !letter_not_ws; [done| |]; lia.
Qed.

Lemma ascii_lower_ws c : is_ws (ascii_lower c) = is_ws c.
Proof.
  unfold ascii_lower. destruct (_ && _) eqn:E; [|done].
  apply andb_true_iff in E as [H1%N.leb_le H2%N.leb_le].
  rewrite !letter_not_ws; [done| |]; lia.
Qed.

Section Mapped.

Variable f : N -> N.
Hypothesis f_ws : forall c, is_ws (f c) = is_ws c.

Lemma trimStart_map s : trimStart (map f s) = map f (trimStart s).
Proof.
  induction s as [|c r IH]; [done|]. simpl. rewrite f_ws.
  by destruct (is_ws c).
Qed.

Lemma trimEnd_map s : trimEnd (map f s) = map f (trimEnd s).
Proof. unfold trimEnd. by rewrite <- map_rev, trimStart_map, map_rev. Qed.

Lemma starts_with_ws_map s : starts_with_ws (map f s) = starts_with_ws s.
Proof. destruct s; [done|]. simpl. apply f_ws. Qed.

End Mapped.

Lemma case_mapping_ok : case_mapping_tidy.
Proof.
  split; cbn [toUpperCase toLowerCase platform].
  - intros s. by rewrite (starts_with_ws_map _ ascii_upper_ws).
  - intros s Hs. by rewrite (trimEnd_map _ ascii_upper_ws), Hs.
  - intros s Hs. by rewrite (trimEnd_map _ ascii_lower_ws), Hs.
Qed.

(** ** Selectors on the card template *)

Example select_fax_value :
  querySelector template (js ".card__bottom-contact--fax .card__bottom-value")
  = Some [1; 0; 7; 1]%nat.
Proof. reflexivity. Qed.

Example select_second_word :
  querySelectorAll template (js ".card__company-word") = [[1; 0; 1]; [1; 0; 3]]%nat.
Proof. reflexivity. Qed.

Example read_first :
  readTemplateField template personFirstConfig = js "Paul".
Proof. reflexivity. Qed.

Example parse_template : parseHTML (serialize template) = template.
Proof. by vm_compute. Qed.

(** ** The template engine on inputs *)

(** C1, as stated, fails: the values leave [personLast] empty in the
    document, and the title, [ca.rd] before, reads [Patrick] after. *)
Lemma title_overwritten_when_last_is_empty :
  let doc := (write_fields (parseHTML (serialize template)) patrick_only).1 in
  sanitizeFieldValue (JStr (readTemplateField doc personLastConfig)) = []
  /\ querySelector doc (js "title") = Some title_node
  /\ textContent doc title_node = js "ca.rd"
  /\ textContent (derive_title doc) title_node = js "Patrick"
  /\ (applyFieldsToTemplate (serialize template) patrick_only).1
     <> DOCTYPE ++ outerHTML doc.
Proof. by vm_compute. Qed.

(** The derived title on the card: both names given, and the first
    name alone. *)
Lemma applyFields_derived_title_witness :
  case_mapping_tidy
  /\ (applyFieldsToTemplate (serialize template) patrick).1
     = DOCTYPE
       ++ outerHTML
            (set_title (write_fields (parseHTML (serialize template)) patrick).1
                       (js "Patrick Bateman"))
  /\ (applyFieldsToTemplate (serialize template) patrick_only).1
     = DOCTYPE
       ++ outerHTML
            (set_title (write_fields (parseHTML (serialize template)) patrick_only).1
                       (js "Patrick")).
Proof.
  split; [exact case_mapping_ok|]. split.
  - destruct (applyFields_derived_title case_mapping_ok
                (serialize template) patrick) as [H _].
    apply H; by vm_compute.
  - destruct (applyFields_derived_title case_mapping_ok
                (serialize template) patrick_only) as (_ & H & _).
    apply H; by vm_compute.
Defined.

(** Of three values, the two the registry knows are applied. *)
Lemma applyFields_applied_exact_witness :
  NoDup (Object_keys mixed)
  /\ (js "phone" ∈ Object_keys (applyFieldsToTemplate (serialize template) mixed).2
      <-> js "phone" ∈ Object_keys mixed
          /\ is_Some (TEMPLATE_FIELD_MAP !! js "phone"))
  /\ (js "nickname" ∈ Object_keys (applyFieldsToTemplate (serialize template) mixed).2
      <-> js "nickname" ∈ Object_keys mixed
          /\ is_Some (TEMPLATE_FIELD_MAP !! js "nickname")).
Proof.
  assert (Hnd : NoDup (Object_keys mixed)).
  { apply (bool_decide_unpack _). by vm_compute. }
  split; [exact Hnd|].
  destruct (applyFields_applied_exact (serialize template) mixed Hnd) as [H _].
  split; apply H.
Defined.

(** A known field is kept, sanitized; the unknown one is dropped. *)
Lemma normalizeFieldValues_registry_only_witness :
  (js "personFirst", js "pat rick")
    ∈ normalizeFieldValues
        (Some (JObj [(js "personFirst", JStr (js "  pat   rick "));
                     (js "nickname", JStr (js "pat"))]))
  /\ is_Some (TEMPLATE_FIELD_MAP !! js "personFirst").
Proof.
  assert (Hin : (js "personFirst", js "pat rick")
            ∈ normalizeFieldValues
                (Some (JObj [(js "personFirst", JStr (js "  pat   rick "));
                             (js "nickname", JStr (js "pat"))]))).
  { vm_compute. left. }
  split; [exact Hin|].
  destruct (normalizeFieldValues_registry_only
              (Some (JObj [(js "personFirst", JStr (js "  pat   rick "));
                           (js "nickname", JStr (js "pat"))]))) as [H _].
  exact (proj1 (H _ _ Hin)).
Defined.

(** ** The publisher on scripted worlds *)




(** The README lookup is answered 200 with a payload that has no
    [sha]: no DELETE is sent and the commit decides the outcome. *)
Lemma readme_without_sha_skips_delete_witness :
  exists prefix,
    branch_created readme_without_sha branch (step 2 readme_without_sha) prefix
    /\ removeReadmeFromBranch branch (step 2 readme_without_sha)
       = MkRan (Returned tt) (step 3 readme_without_sha)
           [EvFetch (api (readme_lookup_path branch))
              (with_github_headers (get_init));
            EvConsole LevelWarn
              [LStr (js "[/github/preview] README metadata missing SHA.")]]
    /\ outcome (pushPreviewBranch html message readme_without_sha)
       = outcome (commit_content branch html message (step 3 readme_without_sha)).
Proof.
  assert (Hb : exists prefix,
            branch_created readme_without_sha branch
              (step 2 readme_without_sha) prefix).
  { eexists. unfold branch.
    refine (BranchCreated readme_without_sha _ _ _ _ (js "1f0e")
              _ _ _ _ _ _ _ _ _ _ _); reflexivity. }
  destruct Hb as [prefix Hb]. exists prefix. split; [exact Hb|].
  destruct (readme_without_sha_skips_delete html message readme_without_sha
              branch (step 2 readme_without_sha) prefix
              {| status := 200;
                 body_text := stringify (JObj [(js "name", JStr (js "README.md"))]);
                 body_json := Some (JObj [(js "name", JStr (js "README.md"))]) |}
              (step 3 readme_without_sha)
              (JObj [(js "name", JStr (js "README.md"))])
              Hb eq_refl eq_refl eq_refl eq_refl) as (Hr & Hp & _).
  split; [exact Hr|]. by rewrite Hp.
Defined.

(** Two attempts with different identifiers *)
Lemma branch_name_from_fresh_id_witness :
  outcome (pushPreviewBranch html message no_readme) = Returned (pushed "1f0e")
  /\ outcome (pushPreviewBranch html message other_attempt)
     = Returned (pushed "2a9b")
  /\ branchName (pushed "1f0e") <> branchName (pushed "2a9b").
Proof.
  assert (H1 : outcome (pushPreviewBranch html message no_readme)
               = Returned (pushed "1f0e")) by reflexivity.
  assert (H2 : outcome (pushPreviewBranch html message other_attempt)
               = Returned (pushed "2a9b")) by reflexivity.
  split; [exact H1|]. split; [exact H2|].
  destruct (branch_name_from_fresh_id html message no_readme
              html message other_attempt _ _ H1 H2)
    as (u1 & u2 & Hu1 & Hu2 & _ & _ & Hne).
  apply Hne. vm_compute in Hu1, Hu2. congruence.
Defined.




(** C9, as stated, fails: a [commitMessage] string is provided, its
    trimmed and capped form is the empty string, and the content
    commit is sent with the default message instead. *)
Lemma blank_commit_message_gets_default :
  get_property (Some blank_message) (js "commitMessage") = Some (JStr (js "   "))
  /\ take 250 (trim (js "   ")) = []
  /\ outcome (commit_message_of blank_message no_readme)
     = Returned (js "chore: update card preview 2024-05-01T12:00:00.000Z")
  /\ trace (preview_handler (Some blank_message) no_readme)
     !! 7%nat
     = Some (update_event branch
               (applyFieldsToTemplate (serialize template)
                  [(js "personFirst", js "patrick")]).1
               (js "chore: update card preview 2024-05-01T12:00:00.000Z")).
Proof. by vm_compute. Qed.

(** A commit message with spaces around it, and a blank one *)
Lemma commit_message_trimmed_or_default_witness :
  get_property (Some with_message) (js "commitMessage")
    = Some (JStr (js "  chore: personalize card "))
  /\ trim (js "  chore: personalize card ") <> []
  /\ commit_message_of with_message no_readme
     = MkRan (Returned (js "chore: personalize card")) no_readme []
  /\ commit_message_of blank_message no_readme
     = MkRan (Returned (js "chore: update card preview 2024-05-01T12:00:00.000Z"))
         no_readme [EvDate (js "2024-05-01T12:00:00.000Z")].
Proof.
  split; [reflexivity|]. split; [by vm_compute|].
  destruct (commit_message_trimmed_or_default
              with_message no_readme) as (H & _).
  destruct (commit_message_trimmed_or_default
              blank_message no_readme) as (_ & H' & _).
  split.
  - apply (H (js "  chore: personalize card ") eq_refl). by vm_compute.
  - apply H'. reflexivity.
Defined.

(** The example of the specification: [patrick] [BATEMAN] is applied
    as given, the title reads [Patrick Bateman], and the reply names
    the branch. *)
Example preview_patrick_bateman :
  let request :=
    Some (JObj [(js "fields", JObj [(js "personFirst", JStr (js "patrick"));
                                    (js "personLast", JStr (js "BATEMAN"))])]) in
  let run := preview_handler request no_readme in
  outcome run
  = Returned (c_json (JObj [
      (js "branch", JStr (js "card-1f0e"));
      (js "branchUrl", JStr (js "https://github.com/octo/card/tree/card-1f0e"));
      (js "vercelImportUrl",
       JStr (js "https://vercel.com/new/clone?repository-url="
             ++ js "https%3A%2F%2Fgithub.com%2Focto%2Fcard%2Ftree%2Fcard-1f0e"));
      (js "appliedFields", JObj [(js "personFirst", JStr (js "patrick"));
                                 (js "personLast", JStr (js "BATEMAN"))])]))
  /\ textContent (derive_title (write_fields template patrick).1) title_node
     = js "Patrick Bateman".
Proof. by vm_compute. Qed.

(** ** Further runs of the template engine and the publisher *)

(** [template] has no telex nodes: the document stays as parsed, the
    two telex values are still reported, the unknown key is not. *)
Lemma applyFields_absent_nodes_witness :
  NoDup (Object_keys telex)
  /\ write_fields (parseHTML (serialize template)) telex
     = (template,
        [(js "telexLabel", js "TELEX"); (js "telexValue", js "10 4534")]).
Proof.
  assert (Hnd : NoDup (Object_keys telex)).
  { apply (bool_decide_unpack _). by vm_compute. }
  split; [exact Hnd|].
  refine (eq_trans
            (proj1 (applyFields_absent_nodes (serialize template) telex Hnd _))
            _); [|by vm_compute].
  intros k v config Hin Hc.
  apply elem_of_cons in Hin as [Hin|Hin];
    [|apply elem_of_cons in Hin as [Hin|Hin];
      [|apply list_elem_of_singleton in Hin]];
    injection Hin as -> ->; vm_compute in Hc; try discriminate;
    injection Hc as <-; by vm_compute.
Defined.

(** The README is there: the one DELETE of the run is the delete of
    the file the lookup found, with the [sha] of its answer. *)
Lemma removeReadme_deletes_only_what_it_found_witness :
  EvFetch (api readme_path)
    (with_github_headers (delete_init branch (JStr (js "def456"))))
    ∈ trace (removeReadmeFromBranch branch (step 2 with_readme))
  /\ exists response e1 data,
       fetch (api (readme_lookup_path branch)) (with_github_headers get_init)
             (step 2 with_readme)
         = (Some response, e1)
       /\ ok response = true
       /\ body_json response = Some data
       /\ truthy (get_property (Some data) (js "sha")) = Some (JStr (js "def456")).
Proof.
  assert (Hin : EvFetch (api readme_path)
                  (with_github_headers (delete_init branch (JStr (js "def456"))))
                ∈ trace (removeReadmeFromBranch branch (step 2 with_readme))).
  { apply (list_elem_of_lookup_2 _ 1%nat). by vm_compute. }
  split; [exact Hin|].
  destruct (removeReadme_deletes_only_what_it_found branch (step 2 with_readme)
              _ _ Hin eq_refl)
    as (response & e1 & data & readmeSha & Hf & Hok & Hd & Hsha & Hev).
  exists response, e1, data. repeat (split; [done|]).
  rewrite Hsha. f_equal.
  vm_compute in Hf. injection Hf as <- _. vm_compute in Hd.
  injection Hd as <-. vm_compute in Hsha. by injection Hsha as <-.
Defined.




(** The links of the branch of [no_readme] *)
Lemma pushPreviewBranch_result_urls_witness :
  outcome (pushPreviewBranch html message no_readme) = Returned (pushed "1f0e")
  /\ branchUrl (pushed "1f0e") = js "https://github.com/octo/card/tree/card-1f0e"
  /\ vercelImportUrl (pushed "1f0e")
     = js "https://vercel.com/new/clone?repository-url="
       ++ js "https%3A%2F%2Fgithub.com%2Focto%2Fcard%2Ftree%2Fcard-1f0e".
Proof.
  assert (H : outcome (pushPreviewBranch html message no_readme)
              = Returned (pushed "1f0e")) by reflexivity.
  split; [exact H|].
  destruct (pushPreviewBranch_result_urls html message no_readme _ H) as [Hb Hv].
  split; [by rewrite Hb|]. rewrite Hv. by vm_compute.
Defined.

(** The template is not on disk: nothing is sent. *)
Lemma handler_template_load_failure_witness :
  incomplete config = false
  /\ normalizeFieldValues (get_property (Some with_message) (js "fields")) <> []
  /\ readFile previewTemplatePath no_template = (None, no_template)
  /\ preview_handler (Some with_message) no_template
     = MkRan (Returned (c_text (js "Unable to load template file.") 500))
         no_template
         [EvReadFile previewTemplatePath;
          EvConsole LevelError [
            LStr (js "Failed to read preview template from disk.");
            LExn ReadFailed]].
Proof.
  assert (Hn : normalizeFieldValues
                 (get_property (Some with_message) (js "fields")) <> [])
    by (by vm_compute).
  assert (Hc : incomplete config = false) by reflexivity.
  assert (Hf : readFile previewTemplatePath no_template = (None, no_template))
    by reflexivity.
  split; [exact Hc|]. split; [exact Hn|]. split; [exact Hf|].
  exact (handler_template_load_failure with_message no_template no_template
           Hc ltac:(done) Hn Hf).
Defined.

(** A publish that succeeds answers with the branch and the fields. *)
Lemma handler_success_reply_witness :
  incomplete config = false
  /\ outcome (preview_handler (Some with_message) no_readme)
     = Returned (c_json (JObj [
         (js "branch", JStr (js "card-1f0e"));
         (js "branchUrl", JStr (js "https://github.com/octo/card/tree/card-1f0e"));
         (js "vercelImportUrl", JStr (vercelImportUrl (pushed "1f0e")));
         (js "appliedFields", JObj [(js "personFirst", JStr (js "patrick"))])])).
Proof.
  assert (Hc : incomplete config = false) by reflexivity.
  split; [exact Hc|].
  assert (Hn : normalizeFieldValues
                 (get_property (Some with_message) (js "fields")) <> [])
    by (by vm_compute).
  assert (Hf : readFile previewTemplatePath no_readme
               = (Some (serialize template), no_readme)) by reflexivity.
  destruct (handler_success_reply with_message no_readme (serialize template)
              no_readme Hc ltac:(done) Hn Hf)
    as (commitMessage & e2 & t & Hm & H).
  vm_compute in Hm. injection Hm as <- <- _.
  by rewrite (H (pushed "1f0e") ltac:(by vm_compute)).
Defined.

(** The first request of a publish, the base-ref lookup, carries the
    token of [config]. *)
Lemma handler_requests_authenticated_witness :
  EvFetch (api base_ref_path) (with_github_headers get_init)
    ∈ trace (preview_handler (Some with_message) no_readme)
  /\ exists hs,
       headers (with_github_headers get_init) = Some hs
       /\ obj_get (js "Authorization") hs = Some (js "token ghp_token").
Proof.
  assert (Hin : EvFetch (api base_ref_path) (with_github_headers get_init)
                ∈ trace (preview_handler (Some with_message) no_readme)).
  { apply (list_elem_of_lookup_2 _ 1%nat). by vm_compute. }
  split; [exact Hin|].
  destruct (handler_requests_authenticated (Some with_message) no_readme _ _ Hin)
    as (_ & hs & Hhs & _ & Hauth & _).
  exists hs. by split.
Defined.

(** ** The demo encoder *)

Lemma hex_digit_ge n : 48 <= hex_digit n.
Proof. unfold hex_digit. destruct (n <? 10) eqn:Hn; [lia|]. apply N.ltb_ge in Hn. lia. Qed.

Lemma percent_no_slash bytes : 47 ∉ concat (map percent bytes).
Proof.
  induction bytes as [|b bytes IH]; cbn [map concat]; [apply not_elem_of_nil|].
  apply not_elem_of_app. split; [|done]. unfold percent.
  pose proof (hex_digit_ge (b / 16)). pose proof (hex_digit_ge (b mod 16)).
  repeat (apply not_elem_of_cons; split; [lia|]). apply not_elem_of_nil.
Qed.

Lemma encode_uri_no_slash s : 47 ∉ encode_uri s.
Proof.
  unfold encode_uri.
  induction s as [|c s IH]; cbn [map concat]; [apply not_elem_of_nil|].
  apply not_elem_of_app. split; [|done].
  destruct (unreserved c) eqn:Hc; [|apply percent_no_slash].
  apply not_elem_of_cons. split; [|apply not_elem_of_nil].
  intros <-. by vm_compute in Hc.
Qed.

(** A path with a space in a directory name *)
Lemma encodeGitHubPath_keeps_segments_witness :
  (forall s, 47 ∉ encodeURIComponent s)
  /\ split_on 47 (encodeGitHubPath (js "public/my card/index.html"))
     = [js "public"; js "my%20card"; js "index.html"].
Proof.
  assert (H : forall s, 47 ∉ encodeURIComponent s) by exact encode_uri_no_slash.
  split; [exact H|]. by rewrite (encodeGitHubPath_keeps_segments H).
Defined.

(** The path of the README needs no escaping. *)
Lemma encodeGitHubPath_plain_path_witness :
  Forall (fun segment => encodeURIComponent segment = segment)
         (split_on 47 (js "docs/README.md"))
  /\ encodeGitHubPath (js "docs/README.md") = js "docs/README.md".
Proof.
  assert (H : Forall (fun segment => encodeURIComponent segment = segment)
                     (split_on 47 (js "docs/README.md")))
    by (by repeat constructor).
  split; [exact H|]. exact (encodeGitHubPath_plain_path _ H).
Defined.

End DemoFacts.
